(** * Hashstack V0 cumulative interest rates

    A shallow embedding of
    [data_handler/handlers/loan_states/hashtack_v0/interest_rate.py]:
    the pagination planner [_get_blocks_bounds], the fetch step
    [_set_events], the accrual fold [calculate_interest_rates] and the
    driver [run], followed by the properties established for them.

    Python [int] is [Z].  A [Decimal] is its value, a rational [Q]; the
    products and the quotient of lines 104-105 are rounded as the default
    decimal context rounds them.  A Python exception is [None] in the fold
    and [Raised] in the driver. *)

From Stdlib Require Import ZArith QArith Ascii Sorted Lia.
From stdpp Require Import base option list gmap strings.

Open Scope Z_scope.

(** ** Data *)

(** An event as the API returns it: a dict with the keys [block_number],
    [timestamp], [key_name] and [data] (a list of hexadecimal strings). *)
Record Event := {
  block_number : Z;
  timestamp : Z;
  key_name : string;
  data : list string
}.

(** Modelled from the spec: [db.models.InterestRate] is not part of the
    sources.  The snapshot holds the protocol identifier, the block number,
    the two accumulator mappings frozen at emission time and the timestamp of
    the last update. *)
Record InterestRate := {
  protocol_id : string;
  block : Z;
  ir_timestamp : Z;
  collateral : gmap string Q;
  debt : gmap string Q
}.

(** Modelled from the spec: [handlers.helpers.InterestRateState] is not part
    of the sources.  It carries the block being accumulated, the timestamp of
    the most recently processed event, the last-seen timestamp of every token
    (0 = uninitialized) and the two cumulative accumulators. *)
Record InterestRateState := {
  current_block : Z;
  current_timestamp : Z;
  token_timestamps : gmap string Z;
  cumulative_collateral : gmap string Q;
  cumulative_debt : gmap string Q
}.

(** Modelled from the spec: the mappings of [InterestRateState] are read at
    a token name, and a token that was never written reads as 0, the
    uninitialized value (which keys the dicts hold at first is decided
    outside the sources). *)
Definition stamp_of (m : gmap string Z) (token_name : string) : Z :=
  default 0 (m !! token_name).

Definition rate_of (m : gmap string Q) (token_name : string) : Q :=
  default 0%Q (m !! token_name).

(** What the API connector answers: a dict carrying an error, or the list
    of events. *)
Inductive api_result :=
  | ApiError (message : string)
  | ApiEvents (result : list Event).

(** A block bound as [_set_events] may receive it: [isinstance(_, int)]
    holds of [BInt] only. *)
Inductive block_arg :=
  | BInt (n : Z)
  | BOther (repr : string).

Definition is_int (b : block_arg) : bool :=
  match b with BInt _ => true | BOther _ => false end.

(** The object [self], with the two connectors it owns reduced to what the
    driver does with them: the requests sent through [api_connector], the
    rows written through [db_connector], and the lines given to [logging]. *)
Record HashstackV0InterestRate := {
  last_block_data : option InterestRate;
  events : list Event;
  _events_over : bool;
  api_requests : list (block_arg * block_arg);
  db_rows : list InterestRate;
  logged : list string
}.

Definition with_events (evs : list Event) (self : HashstackV0InterestRate)
  : HashstackV0InterestRate :=
  {| last_block_data := last_block_data self;
     events := evs;
     _events_over := _events_over self;
     api_requests := api_requests self;
     db_rows := db_rows self;
     logged := logged self |}.

Definition with_last_block_data (r : option InterestRate)
  (self : HashstackV0InterestRate) : HashstackV0InterestRate :=
  {| last_block_data := r;
     events := events self;
     _events_over := _events_over self;
     api_requests := api_requests self;
     db_rows := db_rows self;
     logged := logged self |}.

(** The outcome of the driver: it returned, or an exception left it. *)
Inductive outcome :=
  | Returned (self : HashstackV0InterestRate)
  | Raised.

(** ** Constants *)

Definition PAGINATION_SIZE : Z := 1000.

Definition SECONDS_IN_YEAR : Q := inject_Z (365 * 24 * 60 * 60).

Definition percents_decimals_shift : Q := 1 # 10000.

(** ** Decimal arithmetic

    A product or a quotient of two [Decimal] values is the exact result
    rounded to the 28 significant digits of the default context, to the
    nearest value and, on a tie, to the one whose last digit is even.  The
    exponent range of the context is not modelled: a result leaves it only
    with about a million digits. *)

Definition decimal_precision : Z := 28.

(** The number of decimal digits of a positive integer. *)
Fixpoint digits_upto (fuel : nat) (n : Z) : Z :=
  match fuel with
  | O => 0
  | S fuel => if n <? 10 then 1 else 1 + digits_upto fuel (n / 10)
  end.

Definition digits (n : Z) : Z := digits_upto (S (Z.to_nat (Z.log2 n))) n.

(** [n / d] to the nearest integer, a tie to the even one, for [n] not
    negative and [d] positive. *)
Definition div_half_even (n d : Z) : Z :=
  let q := n / d in
  match 2 * (n mod d) ?= d with
  | Lt => q
  | Gt => q + 1
  | Eq => if Z.even q then q else q + 1
  end.

(** The exponent [e] of the leading digit of [n / d], both positive:
    [10 ^ e <= n / d < 10 ^ (e + 1)].  The digit counts leave two
    candidates. *)
Definition leading_exponent (n d : Z) : Z :=
  let k := digits n - digits d in
  if (if 0 <=? k then d * 10 ^ k <=? n else d <=? n * 10 ^ (- k))
  then k else k - 1.

(** The value kept of an exact result: a coefficient of at most 28 digits
    times a power of ten, with the sign of the result. *)
Definition decimal_round (q : Q) : Q :=
  let n := Z.abs (Qnum q) in
  let d := Z.pos (Qden q) in
  if n =? 0 then 0%Q
  else
    let e := leading_exponent n d - (decimal_precision - 1) in
    let coefficient :=
      if 0 <=? e then div_half_even n (d * 10 ^ e)
      else div_half_even (n * 10 ^ (- e)) d in
    let magnitude :=
      if 0 <=? e then inject_Z (coefficient * 10 ^ e)
      else Qmake coefficient (Z.to_pos (10 ^ (- e))) in
    Qred (if Qnum q <? 0 then - magnitude else magnitude)%Q.

Definition decimal_mul (x y : Q) : Q := decimal_round (x * y).

Definition decimal_div (x y : Q) : Q := decimal_round (x / y).

(** ** The pagination planner *)

Definition _get_blocks_bounds (start_block end_block latest_block : Z) : Z * Z :=
  if end_block + PAGINATION_SIZE <? latest_block then
    let start_block := start_block + end_block in
    if start_block + PAGINATION_SIZE <=? latest_block
    then (start_block, end_block + PAGINATION_SIZE)
    else (start_block, latest_block)
  else (start_block, latest_block).

(** ** The accrual state *)

(** Modelled from the spec: [InterestRateState.get_seconds_passed], the
    seconds between the current timestamp and the token's stored one. *)
Definition get_seconds_passed (st : InterestRateState) (token_name : string) : Q :=
  inject_Z (current_timestamp st - stamp_of (token_timestamps st) token_name).

(** Modelled from the spec: [InterestRateState.update_state_cumulative_data]
    adds the two changes to the token's accumulators, stores the current
    timestamp as the token's and advances the current block.  The
    accumulators are the arbitrary-precision decimals of the spec: the sums
    are exact. *)
Definition update_state_cumulative_data (st : InterestRateState)
  (token_name : string) (current_block : Z)
  (cumulative_collateral_change cumulative_debt_change : Q) : InterestRateState :=
  {| current_block := current_block;
     current_timestamp := current_timestamp st;
     token_timestamps :=
       <[token_name := current_timestamp st]> (token_timestamps st);
     cumulative_collateral :=
       <[token_name := (rate_of (cumulative_collateral st) token_name
                        + cumulative_collateral_change)%Q]>
         (cumulative_collateral st);
     cumulative_debt :=
       <[token_name := (rate_of (cumulative_debt st) token_name
                        + cumulative_debt_change)%Q]>
         (cumulative_debt st) |}.

(** Modelled from the spec: [InterestRateState.build_interest_rate_model],
    a pure projection of the state into a snapshot. *)
Definition build_interest_rate_model (st : InterestRateState)
  (protocol : string) : InterestRate :=
  {| protocol_id := protocol;
     block := current_block st;
     ir_timestamp := current_timestamp st;
     collateral := cumulative_collateral st;
     debt := cumulative_debt st |}.

(** The three assignments the fold makes on the state's attributes. *)
Definition set_current_block (b : Z) (st : InterestRateState) : InterestRateState :=
  {| current_block := b;
     current_timestamp := current_timestamp st;
     token_timestamps := token_timestamps st;
     cumulative_collateral := cumulative_collateral st;
     cumulative_debt := cumulative_debt st |}.

Definition set_current_timestamp (t : Z) (st : InterestRateState) : InterestRateState :=
  {| current_block := current_block st;
     current_timestamp := t;
     token_timestamps := token_timestamps st;
     cumulative_collateral := cumulative_collateral st;
     cumulative_debt := cumulative_debt st |}.

Definition set_token_timestamp (token_name : string) (t : Z)
  (st : InterestRateState) : InterestRateState :=
  {| current_block := current_block st;
     current_timestamp := current_timestamp st;
     token_timestamps := <[token_name := t]> (token_timestamps st);
     cumulative_collateral := cumulative_collateral st;
     cumulative_debt := cumulative_debt st |}.

(** The variables of the loop of [calculate_interest_rates]: the attribute
    [self.last_block_data], the only one the loop assigns, the list being
    built and the accrual state. *)
Record Locals := {
  self_last_block_data : option InterestRate;
  blocks_data : list InterestRate;
  interest_rate_state : InterestRateState
}.

Definition with_state (st : InterestRateState) (v : Locals) : Locals :=
  {| self_last_block_data := self_last_block_data v;
     blocks_data := blocks_data v;
     interest_rate_state := st |}.

(** [not x] for an optional record. *)
Definition is_none {A : Type} (x : option A) : bool :=
  match x with None => true | Some _ => false end.

Definition HASHSTACK_INTEREST_RATE_ADDRESS : string :=
  "0x01b862c518939339b950d0d21a3d4cc8ead102d6270850ac8544636e558fab68".

(** [last] is what [get_last_interest_rate_record_by_protocol_id] found. *)
Definition __init__ (last : option InterestRate) : HashstackV0InterestRate :=
  {| last_block_data := last;
     events := [];
     _events_over := false;
     api_requests := [];
     db_rows := [];
     logged := [] |}.

(** The entry is appended to the list and becomes the last block data;
    [v] carries both, the list [block_data] and the attribute of [self]. *)
Definition _add_block_data (v : Locals) (interest_rate_entry : InterestRate)
  : Locals :=
  {| self_last_block_data := Some interest_rate_entry;
     blocks_data := blocks_data v ++ [interest_rate_entry];
     interest_rate_state := interest_rate_state v |}.

(** ** Instances for closed evaluation

    A reading of [int(_, 16)] on plain hexadecimal literals, with or without
    the [0x] prefix, and a two-token lookup table. *)

Definition hex_digit (c : Ascii.ascii) : option Z :=
  let n := Z.of_nat (Ascii.nat_of_ascii c) in
  if (48 <=? n) && (n <=? 57) then Some (n - 48)
  else if (97 <=? n) && (n <=? 102) then Some (n - 87)
  else if (65 <=? n) && (n <=? 70) then Some (n - 55)
  else None.

Fixpoint hex_digits (acc : Z) (s : string) : option Z :=
  match s with
  | EmptyString => Some acc
  | String c rest =>
      match hex_digit c with
      | Some d => hex_digits (16 * acc + d) rest
      | None => None
      end
  end.

Definition int_of_hex (s : string) : option Z :=
  let digits :=
    match s with
    | String "0"%char (String "x"%char rest) => rest
    | _ => s
    end in
  match digits with
  | EmptyString => None
  | _ => hex_digits 0 digits
  end.

Definition two_tokens : gmap string string :=
  <["0x1" := "ETH"]> (<["0x2" := "USDT"]> ∅).

Definition hashstack_v0 : string := "Hashstack_v0".

(** Two ways of reading the per-token timestamps back from a snapshot:
    none is kept, or the one token [ETH] gets the snapshot's timestamp. *)
Definition no_stored_timestamps (r : InterestRate) : gmap string Z := ∅.

Definition eth_at_snapshot (r : InterestRate) : gmap string Z :=
  <["ETH" := ir_timestamp r]> ∅.

Definition event_of (b t : Z) (key : string) (fields : list string) : Event :=
  {| block_number := b; timestamp := t; key_name := key; data := fields |}.

(** The events of the worked examples: token [0x1] at block 100 and
    timestamp 1000 with zero rates, then one year later with 100 and 50
    basis points, in the same block or in the next. *)
Definition baseline_event : Event :=
  event_of 100 1000 "current_apr" ["0x1"; "0x0"; "0x0"].

Definition year_later_event : Event :=
  event_of 100 (1000 + 31536000) "current_apr" ["0x1"; "0x64"; "0x32"].

Definition next_block_event : Event :=
  event_of 101 (1000 + 31536000) "current_apr" ["0x1"; "0x64"; "0x32"].

Definition two_years_later_event : Event :=
  event_of 101 (1000 + 2 * 31536000) "current_apr" ["0x1"; "0x64"; "0x32"].

(** An event of token [0x1] one second after the baseline. *)
Definition second_later_event : Event :=
  event_of 100 1001 "current_apr" ["0x1"; "0x64"; "0x32"].

(** An event of block 101 that is older than the baseline it follows. *)
Definition older_event : Event :=
  event_of 101 400 "current_apr" ["0x1"; "0x64"; "0x32"].

(** An event of token [0x2] at timestamp 5000. *)
Definition other_token_event : Event :=
  event_of 100 5000 "current_apr" ["0x2"; "0x64"; "0x32"].

(** The loop variables before the first event of a first run. *)
Definition fresh_locals : Locals :=
  {| self_last_block_data := None;
     blocks_data := [];
     interest_rate_state :=
       {| current_block := 100;
          current_timestamp := 0;
          token_timestamps := ∅;
          cumulative_collateral := ∅;
          cumulative_debt := ∅ |} |}.

(** A stored snapshot of block 99, and the loop variables of a run resumed
    from it in which token [ETH] was last seen at timestamp 1000. *)
Definition block_99 : InterestRate :=
  {| protocol_id := hashstack_v0;
     block := 99;
     ir_timestamp := 1000;
     collateral := <["ETH" := 1%Q]> ∅;
     debt := <["ETH" := 1%Q]> ∅ |}.

Definition resumed_locals : Locals :=
  {| self_last_block_data := Some block_99;
     blocks_data := [];
     interest_rate_state :=
       {| current_block := 100;
          current_timestamp := 1000;
          token_timestamps := <["ETH" := 1000]> ∅;
          cumulative_collateral := <["ETH" := 1%Q]> ∅;
          cumulative_debt := <["ETH" := 1%Q]> ∅ |} |}.

(** Three event sources: one that never has events, one whose first answer
    is an error and whose second carries an event, one that always answers
    with an event. *)
Definition quiet_api (n : nat) (address : string) (start_block end_block : block_arg)
  : api_result := ApiEvents [].

Definition failing_api (n : nat) (address : string) (start_block end_block : block_arg)
  : api_result :=
  match n with
  | O => ApiError "upstream unavailable"
  | S O => ApiEvents [baseline_event]
  | _ => ApiEvents []
  end.

Definition answering_api (n : nat) (address : string)
  (start_block end_block : block_arg) : api_result :=
  ApiEvents [baseline_event].

(** ** Notions used in the statements *)

(** The block-number changes met while iterating over the events: the
    positions whose block number differs from the one before ([prev] before
    the first event). *)
Fixpoint block_transitions (prev : Z) (evs : list Event) : nat :=
  match evs with
  | [] => O
  | event :: rest =>
      ((if bool_decide (prev = block_number event) then 0 else 1)
       + block_transitions (block_number event) rest)%nat
  end.

(** Pointwise order of two accumulator mappings. *)
Definition rates_le (m1 m2 : gmap string Q) : Prop :=
  forall token_name, (rate_of m1 token_name <= rate_of m2 token_name)%Q.

(** A snapshot is above the accumulators [c] and [d]. *)
Definition above (c d : gmap string Q) (r : InterestRate) : Prop :=
  rates_le c (collateral r) /\ rates_le d (debt r).

(** Two accrual states agree on what accrual reads and writes. *)
Definition same_accrual (st1 st2 : InterestRateState) : Prop :=
  token_timestamps st1 = token_timestamps st2
  /\ cumulative_collateral st1 = cumulative_collateral st2
  /\ cumulative_debt st1 = cumulative_debt st2.

(** The windows the loop of [run] has to ask for, from the window
    (start_block, end_block): each is planned from the one before, and the
    first that reaches the latest block is the last; [n] bounds their
    number. *)
Fixpoint planned_windows (n : nat) (latest_block start_block end_block : Z)
  : list (Z * Z) :=
  match n with
  | O => []
  | S n =>
      (start_block, end_block)
      :: (if end_block >=? latest_block then []
          else
            let '(next_start, next_end) :=
              _get_blocks_bounds start_block end_block latest_block in
            planned_windows n latest_block next_start next_end)
  end.

(** A window as the arguments of one request. *)
Definition as_request (w : Z * Z) : block_arg * block_arg :=
  (BInt (fst w), BInt (snd w)).

(** The block at which [run] starts: the one of the last block data, or 0. *)
Definition start_block_of (self : HashstackV0InterestRate) : Z :=
  match last_block_data self with Some r => block r | None => 0 end.

(** Of a list of block numbers, those that end a run of equal consecutive
    numbers: the last one, and every one followed by a different number. *)
Fixpoint run_ends (blocks : list Z) : list Z :=
  match blocks with
  | [] => []
  | b :: rest =>
      match rest with
      | [] => [b]
      | b' :: _ =>
          if bool_decide (b = b') then run_ends rest else b :: run_ends rest
      end
  end.

(** Events for the instances below: one of a token the table does not
    know, with rate fields that are not hexadecimal, one with another key
    name, and one without data. *)
Definition unknown_token_event : Event :=
  event_of 100 1200 "current_apr" ["0x9"; "n/a"; "n/a"].

Definition other_key_event : Event :=
  event_of 101 1300 "updated_fee" ["0x1"; "n/a"].

Definition no_data_event : Event :=
  event_of 101 1400 "current_apr" [].

Section Handler.

(** [handler_tools.constants.TOKEN_MAPPING] and the protocol identifier are
    constants declared outside the sources; [int16] is the builtin
    [int(_, 16)], [None] where it raises. *)
Variable TOKEN_MAPPING : gmap string string.
Variable HASHSTACK_ID : string.
Variable int16 : string -> option Z.

(** How a new [InterestRateState] reads the per-token timestamps back from
    a stored snapshot is declared outside the sources as well. *)
Variable stored_timestamps : InterestRate -> gmap string Z.

(** The answer of [api_connector.get_data] to the n-th request. *)
Variable get_data : nat -> string -> block_arg -> block_arg -> api_result.

(** Modelled from the spec: the constructor of [InterestRateState], seeded
    from a fresh zero state or from the last persisted snapshot. *)
Definition InterestRateState_new (current_block : Z)
  (last_block_data : option InterestRate) : InterestRateState :=
  match last_block_data with
  | None =>
      {| current_block := current_block;
         current_timestamp := 0;
         token_timestamps := ∅;
         cumulative_collateral := ∅;
         cumulative_debt := ∅ |}
  | Some r =>
      {| current_block := current_block;
         current_timestamp := ir_timestamp r;
         token_timestamps := stored_timestamps r;
         cumulative_collateral := collateral r;
         cumulative_debt := debt r |}
  end.

(** ** The fetch step *)

Definition _set_events (self : HashstackV0InterestRate)
  (start_block end_block : block_arg) : HashstackV0InterestRate :=
  let self :=
    if negb (is_int start_block) || negb (is_int end_block) then
      {| last_block_data := last_block_data self;
         events := [];
         _events_over := _events_over self;
         api_requests := api_requests self;
         db_rows := db_rows self;
         logged := logged self ++ ["Invalid block numbers provided."] |}
    else self in
  let self := with_events [] self in
  let result :=
    get_data (length (api_requests self)) HASHSTACK_INTEREST_RATE_ADDRESS
      start_block end_block in
  let requests := api_requests self ++ [(start_block, end_block)] in
  match result with
  | ApiError message =>
      {| last_block_data := last_block_data self;
         events := [];
         _events_over := true;
         api_requests := requests;
         db_rows := db_rows self;
         logged := logged self ++ ["Error while fetching events: " +:+ message] |}
  | ApiEvents result =>
      {| last_block_data := last_block_data self;
         events := result;
         _events_over := _events_over self;
         api_requests := requests;
         db_rows := db_rows self;
         logged := logged self |}
  end.

(** ** The accrual fold *)

(** Lines 76-77: the loop starts on an empty list and a state made for the
    first event's block. *)
Definition locals_at_start (self : HashstackV0InterestRate) (first : Event)
  : Locals :=
  {| self_last_block_data := last_block_data self;
     blocks_data := [];
     interest_rate_state :=
       InterestRateState_new (block_number first) (last_block_data self) |}.

(** Lines 81-82: a block number different from the current one closes the
    current block. *)
Definition emit_on_new_block (v : Locals) (event : Event) : Locals :=
  if bool_decide (current_block (interest_rate_state v) = block_number event)
  then v
  else _add_block_data v
         (build_interest_rate_model (interest_rate_state v) HASHSTACK_ID).

(** Lines 85-108: the token is resolved, then the event is skipped, taken
    as the token's baseline, or accrued.  [last] is [self.last_block_data]
    as the event finds it. *)
Definition handle_event (last : option InterestRate) (st : InterestRateState)
  (event : Event) : option InterestRateState :=
  match data event !! 0%nat with
  | None => None
  | Some token_id =>
    let token_name := default "" (TOKEN_MAPPING !! token_id) in
    if String.eqb token_name "" || negb (String.eqb (key_name event) "current_apr")
    then Some (set_current_block (block_number event) st)
    else if is_none last || (stamp_of (token_timestamps st) token_name =? 0)
    then Some (set_current_block (block_number event)
                 (set_token_timestamp token_name (timestamp event) st))
    else
      let st := set_current_timestamp (timestamp event) st in
      let seconds_passed := get_seconds_passed st token_name in
      match data event !! 1%nat ≫= int16 with
      | None => None
      | Some borrow =>
        match data event !! 2%nat ≫= int16 with
        | None => None
        | Some supply =>
          let borrow_apr_bps := inject_Z borrow in
          let supply_apr_bps := inject_Z supply in
          let current_collateral_change :=
            decimal_mul
              (decimal_div (decimal_mul supply_apr_bps seconds_passed)
                 SECONDS_IN_YEAR)
              percents_decimals_shift in
          let current_debt_change :=
            decimal_mul
              (decimal_div (decimal_mul borrow_apr_bps seconds_passed)
                 SECONDS_IN_YEAR)
              percents_decimals_shift in
          Some (update_state_cumulative_data st token_name
                  (block_number event)
                  current_collateral_change current_debt_change)
        end
      end
  end.

Definition loop_body (v : Locals) (event : Event) : option Locals :=
  let v := emit_on_new_block v event in
  match handle_event (self_last_block_data v) (interest_rate_state v) event with
  | None => None
  | Some st => Some (with_state st v)
  end.

Fixpoint for_events (v : Locals) (evs : list Event) : option Locals :=
  match evs with
  | [] => Some v
  | event :: rest =>
      match loop_body v event with
      | None => None
      | Some v' => for_events v' rest
      end
  end.

Definition calculate_interest_rates (self : HashstackV0InterestRate)
  : option (HashstackV0InterestRate * list InterestRate) :=
  match events self with
  | [] => Some (self, [])
  | first :: _ =>
      match for_events (locals_at_start self first) (events self) with
      | None => None
      | Some v =>
          let v :=
            _add_block_data v
              (build_interest_rate_model (interest_rate_state v) HASHSTACK_ID) in
          Some (with_last_block_data (self_last_block_data v) self, blocks_data v)
      end
  end.

(** ** The driver *)

Definition write_batch_to_db (rows : list InterestRate)
  (self : HashstackV0InterestRate) : HashstackV0InterestRate :=
  {| last_block_data := last_block_data self;
     events := events self;
     _events_over := _events_over self;
     api_requests := api_requests self;
     db_rows := db_rows self ++ rows;
     logged := logged self |}.

(** The [while not events_over] loop; [None] when [fuel] iterations were
    not enough. *)
Fixpoint run_loop (fuel : nat) (latest_block : Z) (self : HashstackV0InterestRate)
  (start_block end_block : Z) (events_over : bool) : option outcome :=
  if events_over then Some (Returned self)
  else
    match fuel with
    | O => None
    | S fuel =>
      let events_over := if end_block >=? latest_block then true else events_over in
      let self := _set_events self (BInt start_block) (BInt end_block) in
      let '(start_block, end_block) :=
        _get_blocks_bounds start_block end_block latest_block in
      match events self with
      | [] => run_loop fuel latest_block self start_block end_block events_over
      | _ :: _ =>
          match calculate_interest_rates self with
          | None => Some Raised
          | Some (self, processed_data) =>
              run_loop fuel latest_block (write_batch_to_db processed_data self)
                start_block end_block events_over
          end
      end
    end.

(** [latest_block] is what [NET.get_block_number()] answered. *)
Definition run (fuel : nat) (latest_block : Z) (self : HashstackV0InterestRate)
  : option outcome :=
  let start_block :=
    match last_block_data self with Some r => block r | None => 0 end in
  if start_block =? latest_block then Some (Returned self)
  else
    let '(start_block, end_block) :=
      _get_blocks_bounds start_block (start_block + PAGINATION_SIZE) latest_block in
    run_loop fuel latest_block self start_block end_block false.

(** ** Notions used in the statements, over the constants *)

(** The change lines 104-105 compute from a rate in basis points and a
    number of seconds: two products and a quotient, each rounded. *)
Definition accrued_change (apr_bps seconds_passed : Z) : Q :=
  decimal_mul
    (decimal_div (decimal_mul (inject_Z apr_bps) (inject_Z seconds_passed))
       SECONDS_IN_YEAR)
    percents_decimals_shift.

(** The event has the three data fields, and both rates are hexadecimal. *)
Definition well_formed (event : Event) : Prop :=
  is_Some (data event !! 0%nat)
  /\ is_Some (data event !! 1%nat ≫= int16)
  /\ is_Some (data event !! 2%nat ≫= int16).

(** The token of an event that lines 85-88 do not skip. *)
Definition accruing_token (event : Event) : option string :=
  match data event !! 0%nat with
  | None => None
  | Some token_id =>
      let token_name := default "" (TOKEN_MAPPING !! token_id) in
      if String.eqb token_name "" || negb (String.eqb (key_name event) "current_apr")
      then None
      else Some token_name
  end.

(** Both basis-point fields of the event, where they decode, are not
    negative. *)
Definition nonneg_bps (event : Event) : Prop :=
  (forall borrow, data event !! 1%nat ≫= int16 = Some borrow -> 0 <= borrow)
  /\ (forall supply, data event !! 2%nat ≫= int16 = Some supply -> 0 <= supply).

(** The timestamps stored after an event: the event's own for its token,
    the others as they were. *)
Definition stamps_after_event (stamps : gmap string Z) (event : Event)
  : gmap string Z :=
  match accruing_token event with
  | Some token_name => <[token_name := timestamp event]> stamps
  | None => stamps
  end.

(** No event of a token is older than the timestamp stored for the token
    when the event is met: the one of [stamps] at first, then the one of the
    token's previous event. *)
Fixpoint stamps_in_order (stamps : gmap string Z) (evs : list Event) : Prop :=
  match evs with
  | [] => True
  | event :: rest =>
      (forall token_name, accruing_token event = Some token_name ->
         stamp_of stamps token_name <= timestamp event)
      /\ stamps_in_order (stamps_after_event stamps event) rest
  end.

(** The accrual state the loop ends in, for a non-empty event list. *)
Definition final_state (self : HashstackV0InterestRate) (evs : list Event)
  : option InterestRateState :=
  match evs with
  | [] => None
  | first :: _ =>
      match for_events (locals_at_start (with_events evs self) first) evs with
      | None => None
      | Some v => Some (interest_rate_state v)
      end
  end.

(** The object after [evs] were fetched and folded. *)
Definition fold_window (self : HashstackV0InterestRate) (evs : list Event)
  : option HashstackV0InterestRate :=
  match calculate_interest_rates (with_events evs self) with
  | None => None
  | Some (self', _) => Some self'
  end.

(** * Properties *)

(** ** The planner *)

(** The three exits of the planner, by the two comparisons it makes. *)
Lemma _get_blocks_bounds_cases (start_block end_block latest_block : Z) :
  (end_block + PAGINATION_SIZE < latest_block
   /\ start_block + end_block + PAGINATION_SIZE <= latest_block
   /\ _get_blocks_bounds start_block end_block latest_block
      = (start_block + end_block, end_block + PAGINATION_SIZE))
  \/ (end_block + PAGINATION_SIZE < latest_block
      /\ latest_block < start_block + end_block + PAGINATION_SIZE
      /\ _get_blocks_bounds start_block end_block latest_block
         = (start_block + end_block, latest_block))
  \/ (latest_block <= end_block + PAGINATION_SIZE
      /\ _get_blocks_bounds start_block end_block latest_block
         = (start_block, latest_block)).
Proof.
  unfold _get_blocks_bounds.
  destruct (Z.ltb_spec (end_block + PAGINATION_SIZE) latest_block) as [Hfar | Hnear];
    [ destruct (Z.leb_spec (start_block + end_block + PAGINATION_SIZE) latest_block) | ];
    auto.
Qed.

Lemma planned_end_le (start_block end_block latest_block : Z) :
  snd (_get_blocks_bounds start_block end_block latest_block) <= latest_block.
Proof.
  destruct (_get_blocks_bounds_cases start_block end_block latest_block)
    as [(? & ? & ->) | [(? & ? & ->) | (? & ->)]];
    unfold PAGINATION_SIZE in *; simpl; lia.
Qed.

(** C6: for every triple (previous start, previous end, latest block) the
    window the planner returns ends at or before the latest block. *)
Theorem planned_end_within_latest (start_block end_block latest_block : Z) :
  snd (_get_blocks_bounds start_block end_block latest_block) <= latest_block.
Proof.
  destruct (_get_blocks_bounds_cases start_block end_block latest_block)
    as [(Hfar & _ & ->) | [(_ & _ & ->) | (_ & ->)]]; simpl;
    [ unfold PAGINATION_SIZE in * | | ]; lia.
Qed.

(** A window that ends before the latest block is followed by one that ends
    strictly later. *)
Lemma planned_end_advances (start_block end_block latest_block : Z) :
  end_block < latest_block ->
  end_block < snd (_get_blocks_bounds start_block end_block latest_block).
Proof.
  intros Hlt.
  destruct (_get_blocks_bounds_cases start_block end_block latest_block)
    as [(? & ? & ->) | [(? & ? & ->) | (? & ->)]];
    unfold PAGINATION_SIZE in *; simpl; lia.
Qed.

(** ** One event *)

(** The three ways an event leaves [handle_event]. *)
Lemma handle_event_skipped last st event token_id :
  data event !! 0%nat = Some token_id ->
  accruing_token event = None ->
  handle_event last st event = Some (set_current_block (block_number event) st).
Proof.
  unfold handle_event, accruing_token. intros ->. cbn zeta.
  by destruct (String.eqb _ "" || _).
Qed.

Lemma handle_event_baseline last st event token_name :
  accruing_token event = Some token_name ->
  is_none last || (stamp_of (token_timestamps st) token_name =? 0) = true ->
  handle_event last st event
  = Some (set_current_block (block_number event)
            (set_token_timestamp token_name (timestamp event) st)).
Proof.
  unfold handle_event, accruing_token.
  destruct (data event !! 0%nat) as [token_id|]; [|done]. cbn zeta.
  destruct (String.eqb _ "" || _); [done|].
  intros [= ->] Hguard. by rewrite Hguard.
Qed.

Lemma handle_event_accrual last st event token_name borrow supply :
  accruing_token event = Some token_name ->
  is_none last || (stamp_of (token_timestamps st) token_name =? 0) = false ->
  data event !! 1%nat ≫= int16 = Some borrow ->
  data event !! 2%nat ≫= int16 = Some supply ->
  handle_event last st event
  = Some (update_state_cumulative_data
            (set_current_timestamp (timestamp event) st) token_name
            (block_number event)
            (accrued_change supply
               (timestamp event - stamp_of (token_timestamps st) token_name))
            (accrued_change borrow
               (timestamp event - stamp_of (token_timestamps st) token_name))).
Proof.
  unfold handle_event, accruing_token.
  destruct (data event !! 0%nat) as [token_id|]; [|done]. cbn zeta.
  destruct (String.eqb _ "" || _); [done|].
  intros [= ->] Hguard Hborrow Hsupply. by rewrite Hguard, Hborrow, Hsupply.
Qed.

Lemma handle_event_current_block last st event st' :
  handle_event last st event = Some st' ->
  current_block st' = block_number event.
Proof.
  unfold handle_event. intros H.
  repeat (case_match; simplify_eq/=); done.
Qed.

Lemma handle_event_stamps last st event st' :
  handle_event last st event = Some st' ->
  token_timestamps st' = stamps_after_event (token_timestamps st) event.
Proof.
  unfold handle_event, stamps_after_event, accruing_token. intros H.
  repeat (case_match; simplify_eq/=); done.
Qed.

Lemma handle_event_returns last st event :
  well_formed event -> is_Some (handle_event last st event).
Proof.
  intros ([token_id H0] & [borrow H1] & [supply H2]).
  unfold handle_event. rewrite H0, H1, H2.
  repeat case_match; eauto.
Qed.

(** Lines 81-82 leave the state alone, add at most one snapshot, and can
    only set the last block data. *)
Lemma emit_on_new_block_state v event :
  interest_rate_state (emit_on_new_block v event) = interest_rate_state v.
Proof. unfold emit_on_new_block. by case_bool_decide. Qed.

Lemma emit_on_new_block_length v event :
  length (blocks_data (emit_on_new_block v event))
  = ((if bool_decide (current_block (interest_rate_state v) = block_number event)
      then 0 else 1) + length (blocks_data v))%nat.
Proof.
  unfold emit_on_new_block. case_bool_decide; simpl; [done|].
  rewrite length_app. simpl. lia.
Qed.

Lemma emit_on_new_block_record v event :
  self_last_block_data (emit_on_new_block v event) = None
  <-> self_last_block_data v = None
      /\ current_block (interest_rate_state v) = block_number event.
Proof.
  unfold emit_on_new_block. case_bool_decide; simpl; [tauto|].
  split; [done | tauto].
Qed.

Lemma emit_on_new_block_same v event :
  current_block (interest_rate_state v) = block_number event ->
  emit_on_new_block v event = v.
Proof. intros H. unfold emit_on_new_block. by rewrite bool_decide_eq_true_2. Qed.

Lemma emit_on_new_block_other v event :
  current_block (interest_rate_state v) <> block_number event ->
  emit_on_new_block v event
  = _add_block_data v
      (build_interest_rate_model (interest_rate_state v) HASHSTACK_ID).
Proof. intros H. unfold emit_on_new_block. by rewrite bool_decide_eq_false_2. Qed.

Lemma emit_on_new_block_rows v event r :
  r ∈ blocks_data (emit_on_new_block v event) ->
  r ∈ blocks_data v
  \/ r = build_interest_rate_model (interest_rate_state v) HASHSTACK_ID.
Proof.
  unfold emit_on_new_block. case_bool_decide; simpl; [auto|].
  rewrite elem_of_app, list_elem_of_singleton. tauto.
Qed.

Lemma emit_on_new_block_last v event r :
  self_last_block_data (emit_on_new_block v event) = Some r ->
  self_last_block_data v = Some r
  \/ r = build_interest_rate_model (interest_rate_state v) HASHSTACK_ID.
Proof.
  unfold emit_on_new_block. case_bool_decide; simpl; [auto|].
  intros [= <-]. auto.
Qed.

Lemma emit_on_new_block_keeps_record v event :
  is_none (self_last_block_data v) = false ->
  is_none (self_last_block_data (emit_on_new_block v event)) = false.
Proof. unfold emit_on_new_block. by case_bool_decide. Qed.

(** One turn of the loop, read off its result. *)
Lemma loop_body_inv v event v' :
  loop_body v event = Some v' ->
  exists st',
    handle_event (self_last_block_data (emit_on_new_block v event))
      (interest_rate_state v) event = Some st'
    /\ v' = with_state st' (emit_on_new_block v event).
Proof.
  unfold loop_body. rewrite emit_on_new_block_state.
  destruct (handle_event _ _ event) as [st'|]; [|done].
  intros [= <-]. eauto.
Qed.

Lemma loop_body_returns v event :
  well_formed event -> is_Some (loop_body v event).
Proof.
  intros Hwf. unfold loop_body.
  destruct (handle_event_returns
              (self_last_block_data (emit_on_new_block v event))
              (interest_rate_state (emit_on_new_block v event)) event Hwf)
    as [st' ->].
  eauto.
Qed.

(** ** The fold: counting *)

Lemma for_events_app evs1 : forall v evs2,
  for_events v (evs1 ++ evs2)
  = match for_events v evs1 with
    | Some v1 => for_events v1 evs2
    | None => None
    end.
Proof.
  induction evs1 as [|event rest IH]; intros v evs2; simpl; [done|].
  destruct (loop_body v event); [apply IH | done].
Qed.

Lemma for_events_length evs : forall v v',
  for_events v evs = Some v' ->
  length (blocks_data v')
  = (length (blocks_data v)
     + block_transitions (current_block (interest_rate_state v)) evs)%nat.
Proof.
  induction evs as [|event rest IH]; intros v v' H; simpl in *.
  - simplify_eq. lia.
  - destruct (loop_body v event) as [v1|] eqn:Hstep; [|done].
    apply loop_body_inv in Hstep as (st' & Hst' & ->).
    rewrite (IH _ _ H). simpl.
    rewrite (handle_event_current_block _ _ _ _ Hst').
    rewrite emit_on_new_block_length. lia.
Qed.

Lemma for_events_returns evs : forall v,
  Forall well_formed evs -> is_Some (for_events v evs).
Proof.
  induction evs as [|event rest IH]; intros v Hwf; simpl; [eauto|].
  inversion Hwf as [|? ? Hevent Hrest]; subst.
  destruct (loop_body_returns v event Hevent) as [v1 ->].
  by apply IH.
Qed.

(** C4: a fold over no event emits nothing; a fold over a non-empty list
    of well-formed events returns, and whenever it returns it has emitted
    one snapshot per block-number change met while iterating plus the final
    one, hence at least one. *)
Theorem snapshots_per_fold (self : HashstackV0InterestRate) :
  (events self = [] -> calculate_interest_rates self = Some (self, []))
  /\ (forall first rest, events self = first :: rest ->
        (Forall well_formed (events self) ->
         is_Some (calculate_interest_rates self))
        /\ (forall self' rows,
              calculate_interest_rates self = Some (self', rows) ->
              length rows
              = S (block_transitions (block_number first) (events self))
              /\ (1 <= length rows)%nat)).
Proof.
  unfold calculate_interest_rates. split.
  - by intros ->.
  - intros first rest Hevs. rewrite Hevs. split.
    + intros Hwf.
      destruct (for_events_returns _ (locals_at_start self first) Hwf) as [v' ->].
      eauto.
    + intros self' rows H.
      destruct (for_events (locals_at_start self first) (first :: rest))
        as [v'|] eqn:Hfold; [|done].
      apply for_events_length in Hfold.
      cbn [locals_at_start blocks_data interest_rate_state length] in Hfold.
      simplify_eq. cbn [_add_block_data blocks_data].
      rewrite length_app, Hfold.
      destruct (last_block_data self);
        cbn [InterestRateState_new current_block length]; lia.
Qed.

(** C9: the fold of an empty event list returns the empty list and the
    object as it was: no snapshot is built and the last-block record, like
    every other attribute, is untouched. *)
Theorem empty_fold_changes_nothing (self : HashstackV0InterestRate) :
  events self = [] ->
  calculate_interest_rates self = Some (self, []).
Proof.
  intros Hevs. unfold calculate_interest_rates. by rewrite Hevs.
Qed.

(** C1 (amended): for an event whose key name is [current_apr] and whose
    token resolves, the fold takes the event's timestamp as the token's
    baseline and leaves both accumulators alone when the token's stored
    timestamp is 0, with or without a last-block record; when the stored
    timestamp is not 0 and the object holds a last-block record as the
    event is handled (one persisted before the call or one emitted so far,
    the event's own block change counted), it adds
    supply_bps * seconds_passed / SECONDS_IN_YEAR * 1e-4 to the token's
    collateral accumulator and borrow_bps * seconds_passed / SECONDS_IN_YEAR
    * 1e-4 to its debt accumulator, each product and quotient rounded as
    [Decimal] rounds it, with seconds_passed the event's timestamp minus the
    stored one, and stores the event's timestamp.  An event that finds a
    stored timestamp other than 0 and no last-block record is not covered. *)
Theorem current_apr_event_step (v : Locals) (event : Event)
  (token_id token_name : string) :
  data event !! 0%nat = Some token_id ->
  TOKEN_MAPPING !! token_id = Some token_name ->
  token_name <> "" ->
  key_name event = "current_apr" ->
  let st := interest_rate_state v in
  let stored := stamp_of (token_timestamps st) token_name in
  let no_record :=
    self_last_block_data v = None /\ current_block st = block_number event in
  (stored = 0 ->
   exists v', loop_body v event = Some v'
     /\ token_timestamps (interest_rate_state v')
        = <[token_name := timestamp event]> (token_timestamps st)
     /\ cumulative_collateral (interest_rate_state v') = cumulative_collateral st
     /\ cumulative_debt (interest_rate_state v') = cumulative_debt st)
  /\ (~ no_record -> stored <> 0 ->
      forall borrow supply,
        data event !! 1%nat ≫= int16 = Some borrow ->
        data event !! 2%nat ≫= int16 = Some supply ->
        let seconds_passed := inject_Z (timestamp event - stored) in
        exists v', loop_body v event = Some v'
          /\ cumulative_collateral (interest_rate_state v')
             = <[token_name :=
                   (rate_of (cumulative_collateral st) token_name
                    + decimal_mul
                        (decimal_div
                           (decimal_mul (inject_Z supply) seconds_passed)
                           SECONDS_IN_YEAR)
                        (1 # 10000))%Q]> (cumulative_collateral st)
          /\ cumulative_debt (interest_rate_state v')
             = <[token_name :=
                   (rate_of (cumulative_debt st) token_name
                    + decimal_mul
                        (decimal_div
                           (decimal_mul (inject_Z borrow) seconds_passed)
                           SECONDS_IN_YEAR)
                        (1 # 10000))%Q]> (cumulative_debt st)
          /\ token_timestamps (interest_rate_state v')
             = <[token_name := timestamp event]> (token_timestamps st)).
Proof.
  intros Hid Htok Hname Hkey st stored no_record.
  assert (Haccruing : accruing_token event = Some token_name).
  { unfold accruing_token. rewrite Hid, Htok, Hkey. cbn.
    apply String.eqb_neq in Hname. by rewrite Hname. }
  pose proof (emit_on_new_block_record v event) as Hrec. fold st in Hrec.
  unfold loop_body. rewrite emit_on_new_block_state. fold st.
  split.
  - intros Hbase.
    rewrite (handle_event_baseline _ _ _ _ Haccruing).
    + eexists. split; [reflexivity|]. done.
    + fold stored. rewrite Hbase. apply orb_true_r.
  - intros Hsome Hstored borrow supply Hb Hs. cbv zeta.
    rewrite (handle_event_accrual _ _ _ _ borrow supply Haccruing); [| |done|done].
    + eexists. split; [reflexivity|]. done.
    + apply orb_false_iff. split; [|by apply Z.eqb_neq].
      destruct (self_last_block_data (emit_on_new_block v event));
        [done|]. exfalso. by apply Hsome, Hrec.
Qed.

(** ** Monotonicity of the accumulators *)

Lemma rates_le_refl m : rates_le m m.
Proof. intros token_name. apply Qle_refl. Qed.

Lemma rates_le_trans m1 m2 m3 : rates_le m1 m2 -> rates_le m2 m3 -> rates_le m1 m3.
Proof. intros H12 H23 token_name. eapply Qle_trans; [apply H12 | apply H23]. Qed.

Lemma rates_le_add m token_name (change : Q) :
  (0 <= change)%Q ->
  rates_le m (<[token_name := (rate_of m token_name + change)%Q]> m).
Proof.
  intros Hchange other. unfold rate_of at 2.
  destruct (decide (token_name = other)) as [<- | Hne].
  - rewrite lookup_insert_eq. cbn [default].
    rewrite <- (Qplus_0_r (rate_of m token_name)) at 1.
    apply Qplus_le_r, Hchange.
  - rewrite lookup_insert_ne by done. apply Qle_refl.
Qed.

(** Rounding keeps the sign. *)
Lemma div_half_even_nonneg (n d : Z) :
  0 <= n -> 0 < d -> 0 <= div_half_even n d.
Proof.
  intros Hn Hd. unfold div_half_even.
  pose proof (Z.div_pos n d Hn Hd).
  destruct (2 * (n mod d) ?= d); [destruct (Z.even (n / d))| |]; lia.
Qed.

Lemma decimal_round_nonneg (q : Q) : (0 <= q)%Q -> (0 <= decimal_round q)%Q.
Proof.
  destruct q as [n d]. intros Hq.
  assert (Hn : 0 <= n) by (unfold Qle in Hq; cbn in Hq; lia).
  unfold decimal_round. cbn [Qnum Qden].
  destruct (Z.abs n =? 0); [done|].
  rewrite (proj2 (Z.ltb_ge n 0) Hn), Qred_correct.
  set (e := leading_exponent (Z.abs n) (Z.pos d) - (decimal_precision - 1)).
  destruct (0 <=? e) eqn:He.
  - apply Z.leb_le in He. rewrite <- (Zle_Qle 0).
    apply Z.mul_nonneg_nonneg; [|by apply Z.pow_nonneg].
    apply div_half_even_nonneg; [lia|].
    apply Z.mul_pos_pos; [done|by apply Z.pow_pos_nonneg].
  - apply Z.leb_gt in He. unfold Qle. cbn [Qnum Qden].
    rewrite Z.mul_1_r, Z.mul_0_l.
    apply div_half_even_nonneg; [|done].
    apply Z.mul_nonneg_nonneg; [lia|]. apply Z.pow_nonneg. lia.
Qed.

(** A rate that is not negative, over a span that is not negative, accrues
    a change that is not negative. *)
Lemma change_nonneg (bps seconds : Z) :
  0 <= bps -> 0 <= seconds -> (0 <= accrued_change bps seconds)%Q.
Proof.
  intros Hbps Hsec. unfold accrued_change, decimal_mul, decimal_div.
  apply decimal_round_nonneg, Qmult_le_0_compat; [|done].
  apply decimal_round_nonneg. unfold Qdiv. apply Qmult_le_0_compat; [|done].
  apply decimal_round_nonneg.
  apply Qmult_le_0_compat; rewrite <- (Zle_Qle 0); done.
Qed.

Lemma handle_event_monotone last st event st' :
  nonneg_bps event ->
  (forall token_name, accruing_token event = Some token_name ->
     stamp_of (token_timestamps st) token_name <= timestamp event) ->
  handle_event last st event = Some st' ->
  rates_le (cumulative_collateral st) (cumulative_collateral st')
  /\ rates_le (cumulative_debt st) (cumulative_debt st').
Proof.
  intros [Hborrow Hsupply] Horder. unfold handle_event, accruing_token in *.
  destruct (data event !! 0%nat) as [token_id|]; [|done].
  cbn zeta in *.
  set (token_name := default "" (TOKEN_MAPPING !! token_id)) in *.
  destruct (String.eqb token_name "" || negb (String.eqb (key_name event) "current_apr")).
  { intros [= <-]. simpl. auto using rates_le_refl. }
  destruct (is_none last || (stamp_of (token_timestamps st) token_name =? 0)).
  { intros [= <-]. simpl. auto using rates_le_refl. }
  destruct (data event !! 1%nat ≫= int16) as [borrow|]; [|done].
  destruct (data event !! 2%nat ≫= int16) as [supply|]; [|done].
  intros [= <-]. simpl.
  specialize (Hborrow _ eq_refl). specialize (Hsupply _ eq_refl).
  specialize (Horder _ eq_refl).
  unfold get_seconds_passed. simpl.
  split; apply rates_le_add; apply change_nonneg; lia.
Qed.

Lemma for_events_monotone evs : forall v v' c d,
  Forall nonneg_bps evs ->
  stamps_in_order (token_timestamps (interest_rate_state v)) evs ->
  for_events v evs = Some v' ->
  rates_le c (cumulative_collateral (interest_rate_state v)) ->
  rates_le d (cumulative_debt (interest_rate_state v)) ->
  Forall (above c d) (blocks_data v) ->
  (forall r, self_last_block_data v = Some r -> above c d r) ->
  rates_le c (cumulative_collateral (interest_rate_state v'))
  /\ rates_le d (cumulative_debt (interest_rate_state v'))
  /\ Forall (above c d) (blocks_data v')
  /\ (forall r, self_last_block_data v' = Some r -> above c d r).
Proof.
  induction evs as [|event rest IH]; intros v v' c d Hbps Hord Hfold Hc Hd Hrows Hlast.
  - simpl in Hfold. by simplify_eq.
  - simpl in Hfold. destruct Hord as [Hnow Hord].
    destruct (loop_body v event) as [v1|] eqn:Hstep; [|done].
    apply loop_body_inv in Hstep as (st' & Hst' & ->).
    inversion Hbps as [|? ? Hevent Hrest]; subst.
    pose proof (handle_event_stamps _ _ _ _ Hst') as Hts.
    apply handle_event_monotone in Hst' as (Hc1 & Hd1); [|done|done].
    apply (IH (with_state st' (emit_on_new_block v event)) v' c d Hrest);
      simpl; [by rewrite Hts|done|..].
    + eapply rates_le_trans; eauto.
    + eapply rates_le_trans; eauto.
    + apply Forall_forall. intros r Hr.
      apply emit_on_new_block_rows in Hr as [Hr | ->].
      * by eapply Forall_forall in Hrows.
      * by split.
    + intros r Hr.
      apply emit_on_new_block_last in Hr as [Hr | ->]; [auto|by split].
Qed.

(** C7 (amended): when every event carries basis points that are not
    negative and no event of a token is older than the timestamp stored for
    that token (so that no accrual spans a negative number of seconds),
    every snapshot the fold emits, the last one it leaves in the object
    included, holds for every token a collateral and a debt accumulator at
    or above its value in the seed state. *)
Theorem accumulators_never_decrease (self self' : HashstackV0InterestRate)
  (rows : list InterestRate) (first_block : Z) :
  let seed := InterestRateState_new first_block (last_block_data self) in
  Forall nonneg_bps (events self) ->
  stamps_in_order (token_timestamps seed) (events self) ->
  calculate_interest_rates self = Some (self', rows) ->
  Forall (above (cumulative_collateral seed) (cumulative_debt seed)) rows
  /\ (forall r, last_block_data self' = Some r ->
        above (cumulative_collateral seed) (cumulative_debt seed) r).
Proof.
  intros seed Hbps Hord. unfold calculate_interest_rates.
  assert (Hseed : forall r, last_block_data self = Some r ->
            above (cumulative_collateral seed) (cumulative_debt seed) r).
  { intros r Hr. subst seed. rewrite Hr. split; apply rates_le_refl. }
  destruct (events self) as [|first rest] eqn:Hevs.
  { intros [= <- <-]. split; [constructor | done]. }
  destruct (for_events (locals_at_start self first) (first :: rest))
    as [v'|] eqn:Hfold; [|done].
  apply (for_events_monotone _ _ _ (cumulative_collateral seed)
           (cumulative_debt seed) Hbps) in Hfold
    as (Hc & Hd & Hrows & _).
  - intros [= <- <-]. simpl. split.
    + apply Forall_app. split; [done|]. by repeat constructor.
    + intros r [= <-]. by split.
  - simpl. by destruct (last_block_data self).
  - simpl. destruct (last_block_data self); apply rates_le_refl.
  - simpl. destruct (last_block_data self); apply rates_le_refl.
  - constructor.
  - done.
Qed.

(** ** Termination of the driver *)

Lemma run_loop_returns (fuel : nat) : forall latest_block self start_block end_block events_over,
  (Z.to_nat (latest_block - end_block) < fuel)%nat ->
  is_Some (run_loop fuel latest_block self start_block end_block events_over).
Proof.
  induction fuel as [|fuel IH]; intros latest_block self start_block end_block
    events_over Hfuel; [lia|].
  destruct events_over; simpl; [eauto|].
  pose proof (planned_end_advances start_block end_block latest_block) as Hadv.
  destruct (_get_blocks_bounds start_block end_block latest_block)
    as [start_block' end_block'].
  simpl in Hadv.
  assert (Hnext : forall self',
    is_Some (run_loop fuel latest_block self' start_block' end_block'
               (if end_block >=? latest_block then true else false))).
  { intros self'. destruct (Z.geb_spec end_block latest_block) as [Hge | Hlt].
    - destruct fuel; simpl; eauto.
    - apply IH. specialize (Hadv Hlt). lia. }
  destruct (events (_set_events self (BInt start_block) (BInt end_block)));
    [apply Hnext|].
  destruct (calculate_interest_rates _) as [[self' rows]|]; [apply Hnext | eauto].
Qed.

Lemma run_loop_more_fuel (fuel : nat) : forall fuel' latest_block self start_block end_block
    events_over out,
  (fuel <= fuel')%nat ->
  run_loop fuel latest_block self start_block end_block events_over = Some out ->
  run_loop fuel' latest_block self start_block end_block events_over = Some out.
Proof.
  induction fuel as [|fuel IH]; intros fuel' latest_block self start_block
    end_block events_over out Hle Hrun.
  - destruct events_over; simpl in Hrun; [|done]. by destruct fuel'.
  - destruct fuel' as [|fuel']; [lia|].
    destruct events_over; simpl in *; [done|].
    destruct (_get_blocks_bounds start_block end_block latest_block)
      as [start_block' end_block'].
    destruct (events (_set_events self (BInt start_block) (BInt end_block)));
      [apply IH; [lia|done] |].
    destruct (calculate_interest_rates _) as [[self' rows]|]; [|done].
    apply IH; [lia|done].
Qed.

(** C10: whatever the latest block, a window that ends before it is
    followed by one that ends strictly later and at most at the latest
    block; so the loop, started on any window, returns or raises within
    one more iteration than there are blocks between the window's end and
    the latest block, and so does [run]. *)
Theorem run_terminates (latest_block : Z) (self : HashstackV0InterestRate) :
  (forall start_block end_block,
     end_block < latest_block ->
     end_block < snd (_get_blocks_bounds start_block end_block latest_block)
     <= latest_block)
  /\ (forall start_block end_block events_over,
       exists out, forall fuel,
         (Z.to_nat (latest_block - end_block) < fuel)%nat ->
         run_loop fuel latest_block self start_block end_block events_over
         = Some out)
  /\ (exists fuel out, forall fuel',
       (fuel <= fuel')%nat -> run fuel' latest_block self = Some out).
Proof.
  assert (Hloop : forall self start_block end_block events_over,
    exists out, forall fuel,
      (Z.to_nat (latest_block - end_block) < fuel)%nat ->
      run_loop fuel latest_block self start_block end_block events_over
      = Some out).
  { intros self0 start_block end_block events_over.
    destruct (run_loop_returns (S (Z.to_nat (latest_block - end_block)))
                latest_block self0 start_block end_block events_over)
      as [out Hout]; [lia|].
    exists out. intros fuel Hfuel.
    eapply run_loop_more_fuel; [|exact Hout]. lia. }
  split; [|split].
  - intros start_block end_block Hlt. split.
    + by apply planned_end_advances.
    + apply planned_end_le.
  - apply Hloop.
  - unfold run.
    destruct (_ =? latest_block).
    + exists O. eauto.
    + destruct (_get_blocks_bounds _ _ latest_block) as [start_block end_block].
      destruct (Hloop self start_block end_block false) as [out Hout].
      exists (S (Z.to_nat (latest_block - end_block))), out.
      intros fuel' Hle. apply Hout. lia.
Qed.

(** ** Folding in two windows *)

(** With a last-block record in place, an event is handled by what the
    state holds for accrual alone. *)
Lemma handle_event_same_accrual last1 last2 st1 st2 event st1' :
  is_none last1 = is_none last2 ->
  same_accrual st1 st2 ->
  handle_event last1 st1 event = Some st1' ->
  exists st2', handle_event last2 st2 event = Some st2' /\ same_accrual st1' st2'.
Proof.
  destruct st1 as [b1 t1 ts1 c1 d1], st2 as [b2 t2 ts2 c2 d2].
  intros Hnone (Hts & Hc & Hd). simpl in Hts, Hc, Hd. subst ts2 c2 d2.
  unfold handle_event, get_seconds_passed. simpl. rewrite Hnone.
  intros H. repeat (case_match; simplify_eq/=); eexists; (split; [reflexivity|]);
    by repeat split.
Qed.

Lemma for_events_same_accrual evs : forall v w v',
  is_none (self_last_block_data v) = false ->
  is_none (self_last_block_data w) = false ->
  same_accrual (interest_rate_state v) (interest_rate_state w) ->
  for_events v evs = Some v' ->
  exists w', for_events w evs = Some w'
    /\ same_accrual (interest_rate_state v') (interest_rate_state w').
Proof.
  induction evs as [|event rest IH]; intros v w v' Hv Hw Hsame Hfold; simpl in *.
  - simplify_eq. eauto.
  - destruct (loop_body v event) as [v1|] eqn:Hstep; [|done].
    apply loop_body_inv in Hstep as (st1 & Hst1 & ->).
    pose proof (emit_on_new_block_keeps_record v event Hv) as Hv1.
    pose proof (emit_on_new_block_keeps_record w event Hw) as Hw1.
    destruct (handle_event_same_accrual _
                (self_last_block_data (emit_on_new_block w event)) _
                (interest_rate_state w) _ _ ltac:(by rewrite Hv1, Hw1) Hsame Hst1)
      as (st2 & Hst2 & Hsame').
    unfold loop_body. rewrite emit_on_new_block_state, Hst2.
    by apply (IH (with_state st1 (emit_on_new_block v event))
                 (with_state st2 (emit_on_new_block w event)) v').
Qed.

Lemma for_events_keeps_record evs : forall v v',
  is_none (self_last_block_data v) = false ->
  for_events v evs = Some v' ->
  is_none (self_last_block_data v') = false.
Proof.
  induction evs as [|event rest IH]; intros v v' Hv Hfold; simpl in *.
  - by simplify_eq.
  - destruct (loop_body v event) as [v1|] eqn:Hstep; [|done].
    apply loop_body_inv in Hstep as (st1 & _ & ->).
    apply (IH (with_state st1 (emit_on_new_block v event)) v'); [|done].
    by apply emit_on_new_block_keeps_record.
Qed.

Lemma fold_window_nil self : fold_window self [] = Some (with_events [] self).
Proof. reflexivity. Qed.

Lemma fold_window_cons self first rest self' :
  fold_window self (first :: rest) = Some self' ->
  exists v,
    for_events (locals_at_start self first) (first :: rest) = Some v
    /\ self'
       = with_last_block_data
           (Some (build_interest_rate_model (interest_rate_state v) HASHSTACK_ID))
           (with_events (first :: rest) self).
Proof.
  unfold fold_window, calculate_interest_rates. cbn [events with_events].
  change (locals_at_start (with_events (first :: rest) self) first)
    with (locals_at_start self first).
  destruct (for_events (locals_at_start self first) (first :: rest)) as [v|];
    [|done].
  intros [= <-]. eauto.
Qed.

(** X16: when a last-block record seeds the run and the state rebuilt
    from the snapshot of the first window holds the per-token timestamps of
    the state that snapshot was built from, folding the first window and
    then the second from the object the first fold left ends on the same
    accumulators as folding both windows in one pass. *)
Theorem restart_agrees_when_stamps_are_kept
  (self self1 self2 self' : HashstackV0InterestRate) (evs1 evs2 : list Event) :
  is_Some (last_block_data self) ->
  (forall st, final_state self evs1 = Some st ->
     stored_timestamps (build_interest_rate_model st HASHSTACK_ID)
     = token_timestamps st) ->
  fold_window self evs1 = Some self1 ->
  fold_window self1 evs2 = Some self2 ->
  fold_window self (evs1 ++ evs2) = Some self' ->
  exists r2 r',
    last_block_data self2 = Some r2
    /\ last_block_data self' = Some r'
    /\ collateral r2 = collateral r'
    /\ debt r2 = debt r'.
Proof.
  intros [seed Hseed] Hkept H1 H2 H3.
  destruct evs1 as [|first1 rest1].
  { rewrite fold_window_nil in H1. injection H1 as <-.
    change (fold_window (with_events [] self) evs2)
      with (fold_window self evs2) in H2.
    simpl in H3. rewrite H2 in H3. injection H3 as <-.
    destruct evs2 as [|first2 rest2].
    - rewrite fold_window_nil in H2. injection H2 as <-.
      exists seed, seed. by rewrite <- Hseed.
    - apply fold_window_cons in H2 as (w & _ & ->). simpl.
      by eexists _, _. }
  pose proof H1 as H1'.
  apply fold_window_cons in H1 as (v1 & Hfold1 & ->).
  assert (Hround := Hkept (interest_rate_state v1)).
  unfold final_state in Hround.
  change (locals_at_start (with_events (first1 :: rest1) self) first1)
    with (locals_at_start self first1) in Hround.
  rewrite Hfold1 in Hround. specialize (Hround eq_refl).
  destruct evs2 as [|first2 rest2].
  { rewrite fold_window_nil in H2. injection H2 as <-.
    rewrite app_nil_r, H1' in H3. injection H3 as <-. simpl.
    by eexists _, _. }
  apply fold_window_cons in H2 as (w & Hfold2 & ->).
  rewrite <- app_comm_cons in H3.
  apply fold_window_cons in H3 as (v' & Hfold3 & ->).
  rewrite app_comm_cons, for_events_app, Hfold1 in Hfold3.
  assert (Hrecord : is_none (self_last_block_data v1) = false).
  { apply (for_events_keeps_record (first1 :: rest1)
             (locals_at_start self first1) v1); [|exact Hfold1].
    cbn [locals_at_start self_last_block_data]. by rewrite Hseed. }
  eapply (for_events_same_accrual _ _ v1) in Hfold2
    as (v'' & Hv'' & (_ & Hc & Hd)); [|done|exact Hrecord|by repeat split].
  rewrite Hfold3 in Hv''. injection Hv'' as <-.
  simpl. by eexists _, _.
Qed.

(** * Further properties *)

(** ** The planner *)

(** X1: from a window with start and end not negative and the end at most
    the latest block, the planner moves neither bound back, and leaves the
    end where it was only when it already was the latest block. *)
Theorem planned_window_never_moves_back (start_block end_block latest_block : Z) :
  0 <= start_block ->
  0 <= end_block <= latest_block ->
  let w := _get_blocks_bounds start_block end_block latest_block in
  start_block <= fst w
  /\ end_block <= snd w
  /\ (snd w = end_block -> end_block = latest_block).
Proof.
  intros Hstart Hend w. subst w.
  destruct (_get_blocks_bounds_cases start_block end_block latest_block)
    as [(Hfar & Hfit & ->) | [(Hfar & Hover & ->) | (Hnear & ->)]];
    unfold PAGINATION_SIZE in *; simpl; lia.
Qed.

(** X2: when the planner advances (the previous end is more than a page
    before the latest block), the new window starts at the sum of the
    previous start and the previous end: it begins where the previous one
    ended exactly when the previous start was 0. *)
Theorem planned_window_is_contiguous_only_from_zero
  (start_block end_block latest_block : Z) :
  end_block + PAGINATION_SIZE < latest_block ->
  fst (_get_blocks_bounds start_block end_block latest_block) - end_block
  = start_block
  /\ (fst (_get_blocks_bounds start_block end_block latest_block) = end_block
      <-> start_block = 0).
Proof.
  intros Hfar.
  destruct (_get_blocks_bounds_cases start_block end_block latest_block)
    as [(_ & _ & ->) | [(_ & _ & ->) | (Hnear & _)]]; simpl; lia.
Qed.

(** ** The fetch step *)

Lemma _set_events_frame self start_block end_block :
  api_requests (_set_events self start_block end_block)
  = api_requests self ++ [(start_block, end_block)]
  /\ last_block_data (_set_events self start_block end_block)
     = last_block_data self
  /\ db_rows (_set_events self start_block end_block) = db_rows self.
Proof.
  unfold _set_events.
  destruct (negb (is_int start_block) || negb (is_int end_block));
    cbn [with_events api_requests last_block_data db_rows];
    destruct (get_data _ _ start_block end_block); done.
Qed.

(** X3: whatever the bounds and whatever the answer, the fetch step sends
    exactly one request, leaves the last block data and the written rows
    alone, never clears [_events_over] once it is set, and ends with a
    working set that is empty or is the list the API answered. *)
Theorem _set_events_sends_one_request (self : HashstackV0InterestRate)
  (start_block end_block : block_arg) :
  let self' := _set_events self start_block end_block in
  api_requests self' = api_requests self ++ [(start_block, end_block)]
  /\ last_block_data self' = last_block_data self
  /\ db_rows self' = db_rows self
  /\ (_events_over self = true -> _events_over self' = true)
  /\ (events self' = [] /\ _events_over self' = true
      \/ get_data (length (api_requests self)) HASHSTACK_INTEREST_RATE_ADDRESS
           start_block end_block = ApiEvents (events self')).
Proof.
  intros self'. subst self'. unfold _set_events.
  destruct (negb (is_int start_block) || negb (is_int end_block));
    cbn [with_events api_requests last_block_data db_rows _events_over events];
    destruct (get_data _ _ start_block end_block) as [message | result] eqn:Hanswer;
    cbn [api_requests last_block_data db_rows _events_over events];
    repeat split; auto.
Qed.

(** ** The fold and the attributes of the object *)

Lemma calculate_interest_rates_inv self self' rows :
  calculate_interest_rates self = Some (self', rows) ->
  (events self = [] /\ self' = self /\ rows = [])
  \/ (exists first rest v,
        events self = first :: rest
        /\ for_events (locals_at_start self first) (first :: rest) = Some v
        /\ self'
           = with_last_block_data
               (Some (build_interest_rate_model (interest_rate_state v)
                        HASHSTACK_ID)) self
        /\ rows
           = blocks_data v
             ++ [build_interest_rate_model (interest_rate_state v) HASHSTACK_ID]).
Proof.
  unfold calculate_interest_rates.
  destruct (events self) as [|first rest] eqn:Hevs.
  - intros [= <- <-]. by left.
  - destruct (for_events (locals_at_start self first) (first :: rest))
      as [v|] eqn:Hfold; [|done].
    intros [= <- <-]. right. by exists first, rest, v.
Qed.

(** What a fold leaves of the object: every attribute but the last block
    data, which is the last snapshot it returned, if it returned any. *)
Lemma calculate_interest_rates_frame self self' rows :
  calculate_interest_rates self = Some (self', rows) ->
  events self' = events self
  /\ _events_over self' = _events_over self
  /\ api_requests self' = api_requests self
  /\ db_rows self' = db_rows self
  /\ logged self' = logged self
  /\ (rows = [] /\ last_block_data self' = last_block_data self
      \/ rows <> [] /\ last rows = last_block_data self').
Proof.
  intros H.
  apply calculate_interest_rates_inv in H
    as [(_ & -> & ->) | (first & rest & v & _ & _ & -> & ->)].
  - repeat split; auto.
  - repeat split. right. split.
    + by destruct (blocks_data v).
    + by rewrite last_snoc.
Qed.

(** X4: a fold that returns has assigned one attribute of the object, the
    last block data: the working set, the flag, the requests sent, the rows
    written and the log are as before, and the last block data is the last
    snapshot of the returned list, or is unchanged when the list is
    empty. *)
Theorem fold_assigns_only_the_last_block_data
  (self self' : HashstackV0InterestRate) (rows : list InterestRate) :
  calculate_interest_rates self = Some (self', rows) ->
  self' = with_last_block_data (last_block_data self') self
  /\ (rows = [] /\ last_block_data self' = last_block_data self
      \/ rows <> [] /\ last rows = last_block_data self').
Proof.
  intros H. split; [|by apply calculate_interest_rates_frame in H as (_&_&_&_&_&?)].
  apply calculate_interest_rates_inv in H
    as [(_ & -> & _) | (first & rest & v & _ & _ & -> & _)].
  - by destruct self.
  - reflexivity.
Qed.

(** ** The driver: requests and rows *)

Lemma planned_windows_ends (n : nat) : forall latest_block start_block end_block,
  end_block <= latest_block ->
  Forall (fun w => snd w <= latest_block)
    (planned_windows n latest_block start_block end_block).
Proof.
  induction n as [|n IH]; intros latest_block start_block end_block Hend;
    simpl; [constructor|].
  constructor; [done|].
  destruct (end_block >=? latest_block); [constructor|].
  pose proof (planned_end_le start_block end_block latest_block) as Hnext.
  destruct (_get_blocks_bounds start_block end_block latest_block)
    as [next_start next_end].
  by apply IH.
Qed.



(** The loop, read off its result: the requests it sent are the planned
    windows, and the rows it wrote end on the last block data. *)
Lemma run_loop_trace (fuel : nat) : forall latest_block self start_block end_block
    events_over self',
  run_loop fuel latest_block self start_block end_block events_over
  = Some (Returned self') ->
  api_requests self'
  = api_requests self
    ++ map as_request
         (if events_over then []
          else planned_windows fuel latest_block start_block end_block)
  /\ exists rows,
      db_rows self' = db_rows self ++ rows
      /\ (rows = [] /\ last_block_data self' = last_block_data self
          \/ rows <> [] /\ last rows = last_block_data self').
Proof.
  induction fuel as [|fuel IH]; intros latest_block self start_block end_block
    events_over self' Hrun.
  - destruct events_over; simpl in Hrun; [|done]. injection Hrun as <-.
    rewrite app_nil_r. split; [done|]. exists []. rewrite app_nil_r. auto.
  - destruct events_over; simpl in Hrun.
    { injection Hrun as <-. rewrite app_nil_r. split; [done|].
      exists []. rewrite app_nil_r. auto. }
    destruct (_set_events_frame self (BInt start_block) (BInt end_block))
      as (Hreq & Hlast & Hrows).
    cbn [planned_windows].
    destruct (_get_blocks_bounds start_block end_block latest_block)
      as [next_start next_end].
    set (fetched := _set_events self (BInt start_block) (BInt end_block)) in *.
    assert (Hnext : forall self1,
      run_loop fuel latest_block self1 next_start next_end
        (if end_block >=? latest_block then true else false)
      = Some (Returned self') ->
      api_requests self1 = api_requests fetched ->
      api_requests self'
      = api_requests self
        ++ map as_request
             ((start_block, end_block)
              :: (if end_block >=? latest_block then []
                  else planned_windows fuel latest_block next_start next_end))
      /\ exists rows,
          db_rows self' = db_rows self1 ++ rows
          /\ (rows = [] /\ last_block_data self' = last_block_data self1
              \/ rows <> [] /\ last rows = last_block_data self')).
    { intros self1 Hrun1 Hreq1.
      apply IH in Hrun1 as (Hreq' & rows & Hrows' & Hlast').
      split; [|by exists rows].
      rewrite Hreq', Hreq1, Hreq. cbn [map]. rewrite <- app_assoc.
      by destruct (end_block >=? latest_block). }
    destruct (events fetched) as [|event rest] eqn:Hevents.
    + destruct (Hnext fetched Hrun eq_refl) as (Hreq' & rows & Hrows' & Hlast').
      split; [done|]. exists rows. by rewrite Hrows', Hrows, Hlast in *.
    + destruct (calculate_interest_rates fetched) as [[folded batch]|] eqn:Hfold;
        [|done].
      apply calculate_interest_rates_frame in Hfold
        as (_ & _ & Hreq2 & Hrows2 & _ & Hbatch).
      destruct (Hnext (write_batch_to_db batch folded) Hrun Hreq2)
        as (Hreq' & rows & Hrows' & Hlast').
      split; [done|]. exists (batch ++ rows).
      cbn [write_batch_to_db db_rows last_block_data] in Hrows', Hlast'.
      rewrite Hrows', Hrows2, Hrows, <- app_assoc. split; [done|].
      destruct Hlast' as [(-> & Hsame) | (Hne & Hlast')].
      * rewrite app_nil_r, Hsame. rewrite Hlast in Hbatch. exact Hbatch.
      * right. split; [by destruct batch|].
        rewrite last_app. rewrite Hlast'.
        destruct (last_block_data self') eqn:E; [done|].
        destruct rows using rev_ind; [done|]. by rewrite last_snoc in Hlast'.
Qed.

(** X5: when [run] returns, the requests it sent are the windows planned
    from the window after (start_block, start_block + PAGINATION_SIZE), in
    order, one request per window: which windows are asked for depends on
    the start block and the latest block alone, never on what the API
    answered. *)
Theorem run_requests_follow_the_planner (fuel : nat) (latest_block : Z)
  (self self' : HashstackV0InterestRate) :
  run fuel latest_block self = Some (Returned self') ->
  let w :=
    _get_blocks_bounds (start_block_of self)
      (start_block_of self + PAGINATION_SIZE) latest_block in
  api_requests self'
  = api_requests self
    ++ (if start_block_of self =? latest_block then []
        else map as_request (planned_windows fuel latest_block (fst w) (snd w))).
Proof.
  unfold run. fold (start_block_of self).
  destruct (start_block_of self =? latest_block).
  - intros [= <-]. simpl. by rewrite app_nil_r.
  - destruct (_get_blocks_bounds _ _ latest_block) as [start_block end_block].
    intros Hrun. by apply run_loop_trace in Hrun as [-> _].
Qed.

(** X6: every window [run] asks for ends at or before the latest block,
    and both its bounds are integers. *)
Theorem run_requests_end_within_latest (fuel : nat) (latest_block : Z)
  (self self' : HashstackV0InterestRate) :
  run fuel latest_block self = Some (Returned self') ->
  exists windows,
    api_requests self' = api_requests self ++ map as_request windows
    /\ Forall (fun w => snd w <= latest_block) windows.
Proof.
  unfold run.
  destruct (_ =? latest_block).
  - intros [= <-]. exists []. simpl. by rewrite app_nil_r.
  - pose proof (planned_end_le
                  match last_block_data self with Some r => block r | None => 0 end
                  (match last_block_data self with Some r => block r | None => 0 end
                   + PAGINATION_SIZE) latest_block) as Hend.
    destruct (_get_blocks_bounds _ _ latest_block) as [start_block end_block].
    intros Hrun. apply run_loop_trace in Hrun as [-> _].
    eexists. split; [reflexivity|]. by apply planned_windows_ends.
Qed.


(** X8: a [run] that returns has sent no request exactly when the start
    block already was the latest block; it then returns the object as it
    was. *)
Theorem run_is_idle_only_when_caught_up (fuel : nat) (latest_block : Z)
  (self self' : HashstackV0InterestRate) :
  run fuel latest_block self = Some (Returned self') ->
  (api_requests self' = api_requests self <-> start_block_of self = latest_block)
  /\ (start_block_of self = latest_block -> self' = self).
Proof.
  unfold run. fold (start_block_of self).
  destruct (Z.eqb_spec (start_block_of self) latest_block) as [Hsame | Hother].
  - intros [= <-]. tauto.
  - destruct (_get_blocks_bounds _ _ latest_block) as [start_block end_block].
    intros Hrun. split; [|done]. split; [|done].
    destruct fuel as [|fuel]; [done|].
    apply run_loop_trace in Hrun as [-> _].
    intros Hreq. exfalso.
    apply (f_equal length) in Hreq. rewrite length_app, length_map in Hreq.
    simpl in Hreq. lia.
Qed.

(** X9: [run] only appends to the rows written: those present before are
    kept, in place; and when it returns after writing rows, the last block
    data of the object is the last row written, while it is unchanged when
    nothing was written. *)
Theorem run_appends_rows_and_keeps_the_last (fuel : nat) (latest_block : Z)
  (self self' : HashstackV0InterestRate) :
  run fuel latest_block self = Some (Returned self') ->
  exists rows,
    db_rows self' = db_rows self ++ rows
    /\ (rows = [] /\ last_block_data self' = last_block_data self
        \/ rows <> [] /\ last rows = last_block_data self').
Proof.
  unfold run.
  destruct (_ =? latest_block).
  - intros [= <-]. exists []. rewrite app_nil_r. auto.
  - destruct (_get_blocks_bounds _ _ latest_block) as [start_block end_block].
    intros Hrun. by apply run_loop_trace in Hrun as [_ Hrows].
Qed.

(** ** The fold: what raises, what is carried forward *)

Lemma for_events_raises evs : forall v,
  (exists event, event ∈ evs /\ data event = []) ->
  for_events v evs = None.
Proof.
  induction evs as [|event rest IH]; intros v (bad & Hin & Hdata).
  - by apply elem_of_nil in Hin.
  - simpl. destruct (loop_body v event) as [v1|] eqn:Hstep; [|done].
    apply elem_of_cons in Hin as [-> | Hin]; [|apply IH; eauto].
    apply loop_body_inv in Hstep as (st1 & Hst1 & _).
    unfold handle_event in Hst1. by rewrite Hdata in Hst1.
Qed.

(** X10: an event whose data list is empty makes the fold raise, wherever
    it stands in the working set and whatever the other events are. *)
Theorem fold_raises_on_an_event_without_data (self : HashstackV0InterestRate)
  (event : Event) :
  event ∈ events self ->
  data event = [] ->
  calculate_interest_rates self = None.
Proof.
  intros Hin Hdata. unfold calculate_interest_rates.
  destruct (events self) as [|first rest] eqn:Hevs.
  - by apply elem_of_nil in Hin.
  - rewrite (for_events_raises (first :: rest) (locals_at_start self first));
      eauto.
Qed.

(** A property of the accrual state that every event keeps is kept by the
    loop, and holds of the state behind every snapshot it emits. *)
Lemma for_events_invariant (I : InterestRateState -> Prop) evs : forall v v',
  (forall last st event st',
     event ∈ evs -> I st -> handle_event last st event = Some st' -> I st') ->
  I (interest_rate_state v) ->
  Forall (fun r => exists st, I st /\ r = build_interest_rate_model st HASHSTACK_ID)
    (blocks_data v) ->
  for_events v evs = Some v' ->
  I (interest_rate_state v')
  /\ Forall (fun r => exists st, I st /\ r = build_interest_rate_model st HASHSTACK_ID)
       (blocks_data v').
Proof.
  induction evs as [|event rest IH]; intros v v' Hkeep Hstate Hrows Hfold;
    simpl in Hfold.
  - by simplify_eq.
  - destruct (loop_body v event) as [v1|] eqn:Hstep; [|done].
    apply loop_body_inv in Hstep as (st1 & Hst1 & ->).
    apply (IH (with_state st1 (emit_on_new_block v event)) v'); [| | |done].
    + intros last st other st' Hin. apply Hkeep. by right.
    + simpl. eapply Hkeep; [by left | exact Hstate | exact Hst1].
    + simpl. apply Forall_forall. intros r Hr.
      apply emit_on_new_block_rows in Hr as [Hr | ->].
      * by eapply Forall_forall in Hrows.
      * eauto.
Qed.

(** The same, for a whole fold: the property holds of the state behind every
    returned snapshot. *)
Lemma calculate_interest_rates_invariant (I : InterestRateState -> Prop)
  self self' rows :
  (forall last st event st',
     event ∈ events self -> I st -> handle_event last st event = Some st' -> I st') ->
  (forall current_block,
     I (InterestRateState_new current_block (last_block_data self))) ->
  calculate_interest_rates self = Some (self', rows) ->
  Forall (fun r => exists st, I st /\ r = build_interest_rate_model st HASHSTACK_ID)
    rows.
Proof.
  intros Hkeep Hseed Hfold.
  apply calculate_interest_rates_inv in Hfold
    as [(_ & _ & ->) | (first & rest & v & Hevs & Hloop & _ & ->)];
    [constructor|].
  rewrite Hevs in Hkeep.
  apply (for_events_invariant I _ _ _ Hkeep) in Hloop as [Hstate Hrows].
  - apply Forall_app. split; [done|]. repeat constructor. eauto.
  - apply Hseed.
  - constructor.
Qed.

Lemma handle_event_without_token last st event st' token_name :
  handle_event last st event = Some st' ->
  accruing_token event <> Some token_name ->
  cumulative_collateral st' !! token_name = cumulative_collateral st !! token_name
  /\ cumulative_debt st' !! token_name = cumulative_debt st !! token_name.
Proof.
  unfold handle_event, accruing_token.
  destruct (data event !! 0%nat) as [token_id|]; [|done]. cbn zeta.
  destruct (String.eqb _ "" || _); [by intros [= <-]|].
  destruct (is_none last || _); [by intros [= <-]|].
  destruct (data event !! 1%nat ≫= int16); [|done].
  destruct (data event !! 2%nat ≫= int16); [|done].
  intros [= <-] Hother. simpl.
  rewrite !lookup_insert_ne by congruence. done.
Qed.

(** X11: a token that no event of the working set accrues or baselines (no
    [current_apr] event resolves to it) has, in every snapshot the fold
    returns, the collateral and debt entries of the seed state. *)
Theorem fold_leaves_other_tokens_alone (self self' : HashstackV0InterestRate)
  (rows : list InterestRate) (token_name : string) (first_block : Z) :
  (forall event, event ∈ events self -> accruing_token event <> Some token_name) ->
  calculate_interest_rates self = Some (self', rows) ->
  let seed := InterestRateState_new first_block (last_block_data self) in
  Forall (fun r =>
            collateral r !! token_name = cumulative_collateral seed !! token_name
            /\ debt r !! token_name = cumulative_debt seed !! token_name) rows.
Proof.
  intros Hother Hfold seed.
  pose (I := fun st : InterestRateState =>
    cumulative_collateral st !! token_name = cumulative_collateral seed !! token_name
    /\ cumulative_debt st !! token_name = cumulative_debt seed !! token_name).
  apply (calculate_interest_rates_invariant I) in Hfold.
  - eapply Forall_impl; [exact Hfold|]. by intros r (st & Hst & ->).
  - intros last st event st' Hin [Hc Hd] Hstep.
    apply handle_event_without_token with (token_name := token_name) in Hstep
      as [Hc' Hd']; [|by apply Hother].
    split; congruence.
  - intros current_block. subst I seed. simpl.
    by destruct (last_block_data self).
Qed.

Lemma data_nonempty_head (event : Event) :
  data event <> [] -> exists token_id, data event !! 0%nat = Some token_id.
Proof. destruct (data event) as [|token_id fields]; [done | eauto]. Qed.

Lemma for_events_ignored_returns evs : forall v,
  Forall (fun event => data event <> [] /\ accruing_token event = None) evs ->
  is_Some (for_events v evs).
Proof.
  induction evs as [|event rest IH]; intros v Hignored; simpl; [eauto|].
  inversion Hignored as [|? ? [Hdata Hnone] Hrest]; subst.
  destruct (data_nonempty_head event Hdata) as [token_id Hid].
  unfold loop_body. rewrite (handle_event_skipped _ _ _ token_id Hid Hnone).
  by apply IH.
Qed.

(** X12: events of tokens the table does not know, and events with another
    key name, are never decoded: if the working set holds only such events,
    each with at least one data field, the fold returns even when their
    rate fields are not hexadecimal, and every snapshot it returns carries
    the accumulators and the timestamp of the seed state. *)
Theorem fold_carries_the_seed_over_ignored_events
  (self : HashstackV0InterestRate) (first_block : Z) :
  Forall (fun event => data event <> [] /\ accruing_token event = None)
    (events self) ->
  let seed := InterestRateState_new first_block (last_block_data self) in
  exists self' rows,
    calculate_interest_rates self = Some (self', rows)
    /\ Forall (fun r =>
                 collateral r = cumulative_collateral seed
                 /\ debt r = cumulative_debt seed
                 /\ ir_timestamp r = current_timestamp seed) rows.
Proof.
  intros Hignored seed.
  assert (Hreturns : is_Some (calculate_interest_rates self)).
  { unfold calculate_interest_rates.
    destruct (events self) as [|first rest]; [eauto|].
    destruct (for_events_ignored_returns _ (locals_at_start self first) Hignored)
      as [v ->]. eauto. }
  destruct Hreturns as [[self' rows] Hfold]. exists self', rows.
  split; [done|].
  pose (I := fun st : InterestRateState =>
    cumulative_collateral st = cumulative_collateral seed
    /\ cumulative_debt st = cumulative_debt seed
    /\ current_timestamp st = current_timestamp seed).
  apply (calculate_interest_rates_invariant I) in Hfold.
  - eapply Forall_impl; [exact Hfold|]. by intros r (st & Hst & ->).
  - intros last st event st' Hin Hst Hstep.
    eapply Forall_forall in Hignored as [Hdata Hnone]; [|exact Hin].
    destruct (data_nonempty_head event Hdata) as [token_id Hid].
    rewrite (handle_event_skipped _ _ _ token_id Hid Hnone) in Hstep.
    by injection Hstep as <-.
  - intros current_block. subst I seed. simpl.
    by destruct (last_block_data self).
Qed.

Lemma for_events_without_record evs : forall v,
  self_last_block_data v = None ->
  Forall (fun event =>
            block_number event = current_block (interest_rate_state v)
            /\ data event <> []) evs ->
  exists v',
    for_events v evs = Some v'
    /\ self_last_block_data v' = None
    /\ blocks_data v' = blocks_data v
    /\ current_block (interest_rate_state v')
       = current_block (interest_rate_state v)
    /\ current_timestamp (interest_rate_state v')
       = current_timestamp (interest_rate_state v)
    /\ cumulative_collateral (interest_rate_state v')
       = cumulative_collateral (interest_rate_state v)
    /\ cumulative_debt (interest_rate_state v')
       = cumulative_debt (interest_rate_state v).
Proof.
  induction evs as [|event rest IH]; intros v Hnone Hevs; simpl.
  - by exists v.
  - inversion Hevs as [|? ? [Hblock Hdata] Hrest]; subst.
    destruct (data_nonempty_head event Hdata) as [token_id Hid].
    unfold loop_body.
    rewrite (emit_on_new_block_same v event) by done.
    assert (Hstep : exists st',
      handle_event (self_last_block_data v) (interest_rate_state v) event
      = Some st'
      /\ current_block st' = block_number event
      /\ current_timestamp st' = current_timestamp (interest_rate_state v)
      /\ cumulative_collateral st' = cumulative_collateral (interest_rate_state v)
      /\ cumulative_debt st' = cumulative_debt (interest_rate_state v)).
    { unfold handle_event. rewrite Hid, Hnone. cbn zeta.
      destruct (String.eqb _ "" || _); cbn [is_none orb]; eauto 10. }
    destruct Hstep as (st' & -> & Hb & Ht & Hc & Hd).
    destruct (IH (with_state st' v)) as (v' & Hfold & ? & ? & ? & ? & ? & ?).
    + done.
    + simpl. rewrite Hb. eapply Forall_impl; [exact Hrest|].
      intros other [Hother ?]. split; [congruence|done].
    + exists v'. simpl in *. repeat split; congruence.
Qed.

(** X13: in a first run (no last block data), a working set whose events
    all carry the first event's block number accrues nothing, however many
    events a token has and whatever their rates: the fold returns exactly
    one snapshot, for that block, with timestamp 0 and empty accumulators,
    and it becomes the last block data. *)
Theorem first_block_of_a_first_run_accrues_nothing
  (self : HashstackV0InterestRate) (first : Event) (rest : list Event) :
  last_block_data self = None ->
  events self = first :: rest ->
  Forall (fun event =>
            block_number event = block_number first /\ data event <> [])
    (events self) ->
  let snapshot :=
    {| protocol_id := HASHSTACK_ID;
       block := block_number first;
       ir_timestamp := 0;
       collateral := ∅;
       debt := ∅ |} in
  calculate_interest_rates self
  = Some (with_last_block_data (Some snapshot) self, [snapshot]).
Proof.
  intros Hnone Hevs Hblock snapshot. unfold calculate_interest_rates.
  rewrite Hevs in *.
  destruct (for_events_without_record (first :: rest)
              (locals_at_start self first))
    as (v & -> & _ & Hrows & Hb & Ht & Hc & Hd).
  { unfold locals_at_start. by rewrite Hnone. }
  { unfold locals_at_start. by rewrite Hnone. }
  unfold locals_at_start in *. rewrite Hnone in *. simpl in *.
  unfold build_interest_rate_model. rewrite Hrows, Hb, Ht, Hc, Hd. done.
Qed.

(** ** The blocks of the snapshots *)

Lemma run_ends_cons b b' rest :
  run_ends (b :: b' :: rest)
  = if bool_decide (b = b') then run_ends (b' :: rest)
    else b :: run_ends (b' :: rest).
Proof. reflexivity. Qed.

Lemma for_events_blocks evs : forall v v',
  for_events v evs = Some v' ->
  map block (blocks_data v') ++ [current_block (interest_rate_state v')]
  = map block (blocks_data v)
    ++ run_ends (current_block (interest_rate_state v) :: map block_number evs).
Proof.
  induction evs as [|event rest IH]; intros v v' Hfold; simpl in Hfold.
  - by simplify_eq.
  - destruct (loop_body v event) as [v1|] eqn:Hstep; [|done].
    apply loop_body_inv in Hstep as (st1 & Hst1 & ->).
    apply handle_event_current_block in Hst1.
    rewrite (IH _ _ Hfold). cbn [with_state blocks_data interest_rate_state].
    rewrite Hst1. cbn [map]. rewrite run_ends_cons.
    unfold emit_on_new_block. case_bool_decide as Hsame; [done|].
    cbn [_add_block_data blocks_data]. rewrite map_app, <- app_assoc. done.
Qed.

Lemma run_ends_elem blocks : forall b, b ∈ run_ends blocks -> b ∈ blocks.
Proof.
  induction blocks as [|b0 rest IH]; intros b Hin; [done|].
  destruct rest as [|b1 rest']; [done|].
  rewrite run_ends_cons in Hin. case_bool_decide.
  - right. by apply IH.
  - apply elem_of_cons in Hin as [-> | Hin]; [by left | right; by apply IH].
Qed.

Lemma run_ends_increasing blocks :
  Sorted Z.le blocks -> StronglySorted Z.lt (run_ends blocks).
Proof.
  intros Hsorted. apply Sorted_StronglySorted in Hsorted; [|intros ???; lia].
  induction blocks as [|b0 rest IH]; [constructor|].
  apply StronglySorted_inv in Hsorted as [Hrest Hall].
  destruct rest as [|b1 rest']; [repeat constructor|].
  rewrite run_ends_cons. case_bool_decide as Hsame; [by apply IH|].
  constructor; [by apply IH|].
  apply Forall_forall. intros b Hin.
  apply run_ends_elem in Hin. rewrite Forall_forall in Hall.
  apply StronglySorted_inv in Hrest as [_ Hall1]. rewrite Forall_forall in Hall1.
  assert (b0 <= b1) by (apply Hall; by left).
  apply elem_of_cons in Hin as [-> | Hin]; [lia|].
  specialize (Hall1 b Hin). lia.
Qed.

(** X14: the block numbers of the snapshots a fold returns are, in order,
    the block numbers that end a run of consecutive events of one block:
    one snapshot per run.  So when the events come ordered by block number,
    the snapshots have strictly increasing block numbers, one per block. *)
Theorem fold_emits_one_snapshot_per_run_of_a_block
  (self self' : HashstackV0InterestRate) (rows : list InterestRate) :
  calculate_interest_rates self = Some (self', rows) ->
  map block rows = run_ends (map block_number (events self))
  /\ (Sorted Z.le (map block_number (events self)) ->
      StronglySorted Z.lt (map block rows)).
Proof.
  intros Hfold.
  assert (Hblocks : map block rows = run_ends (map block_number (events self))).
  { apply calculate_interest_rates_inv in Hfold
      as [(-> & _ & ->) | (first & rest & v & -> & Hloop & _ & ->)]; [done|].
    apply for_events_blocks in Hloop. rewrite map_app. cbn [map block].
    unfold build_interest_rate_model at 1. cbn [block].
    rewrite Hloop. cbn [locals_at_start blocks_data interest_rate_state map app].
    assert (current_block
              (InterestRateState_new (block_number first) (last_block_data self))
            = block_number first) as -> by (by destruct (last_block_data self)).
    by rewrite run_ends_cons, bool_decide_eq_true_2. }
  split; [done|]. rewrite Hblocks. apply run_ends_increasing.
Qed.

End Handler.

(** * Worked instances *)

Lemma current_apr_event_step_witness :
  (exists v',
     loop_body two_tokens hashstack_v0 int_of_hex fresh_locals baseline_event
     = Some v'
     /\ token_timestamps (interest_rate_state v') = <["ETH" := 1000]> ∅
     /\ cumulative_collateral (interest_rate_state v') = ∅
     /\ cumulative_debt (interest_rate_state v') = ∅)
  /\ (exists v',
       loop_body two_tokens hashstack_v0 int_of_hex resumed_locals second_later_event
       = Some v'
       /\ cumulative_collateral (interest_rate_state v')
          = <["ETH" := (1 + decimal_mul
                             (decimal_div
                                (decimal_mul (inject_Z 50) (inject_Z (1001 - 1000)))
                                SECONDS_IN_YEAR)
                             (1 # 10000))%Q]>
              (<["ETH" := 1%Q]> ∅)
       /\ cumulative_debt (interest_rate_state v')
          = <["ETH" := (1 + decimal_mul
                             (decimal_div
                                (decimal_mul (inject_Z 100) (inject_Z (1001 - 1000)))
                                SECONDS_IN_YEAR)
                             (1 # 10000))%Q]>
              (<["ETH" := 1%Q]> ∅)
       /\ token_timestamps (interest_rate_state v')
          = <["ETH" := 1001]> (<["ETH" := 1000]> ∅)).
Proof.
  split.
  - apply (proj1 (current_apr_event_step two_tokens hashstack_v0 int_of_hex
                    fresh_locals baseline_event "0x1" "ETH"
                    eq_refl eq_refl ltac:(discriminate) eq_refl)).
    reflexivity.
  - apply (proj2 (current_apr_event_step two_tokens hashstack_v0 int_of_hex
                    resumed_locals second_later_event "0x1" "ETH"
                    eq_refl eq_refl ltac:(discriminate) eq_refl)).
    + intros [Hnone _]. discriminate Hnone.
    + vm_compute. discriminate.
    + reflexivity.
    + reflexivity.
Defined.

(** C1, as stated, fails.  In a resumed run the first event of a token
    finds a last-block record and the stored timestamp 0: it is taken as the
    token's baseline and nothing accrues, where the claim, whose baseline
    needs that there be no prior state, has the seconds since 0 accrue.  And
    where an event accrues, the change is the rounded one: one second at 100
    basis points adds 3.170979198376458650431253171E-10 to the debt
    accumulator, which is not 100 * 1 / 31536000 * 1e-4. *)
Lemma baseline_after_a_restart_and_rounded_change :
  (exists v2,
     loop_body two_tokens hashstack_v0 int_of_hex resumed_locals other_token_event
     = Some v2
     /\ self_last_block_data resumed_locals = Some block_99
     /\ stamp_of (token_timestamps (interest_rate_state resumed_locals)) "USDT" = 0
     /\ stamp_of (token_timestamps (interest_rate_state v2)) "USDT"
        = timestamp other_token_event
     /\ cumulative_debt (interest_rate_state v2)
        = cumulative_debt (interest_rate_state resumed_locals)
     /\ ~ (rate_of (cumulative_debt (interest_rate_state v2)) "USDT"
           == rate_of (cumulative_debt (interest_rate_state resumed_locals)) "USDT"
              + inject_Z 100 * inject_Z (timestamp other_token_event - 0)
                / SECONDS_IN_YEAR * (1 # 10000))%Q)
  /\ (exists v2,
       loop_body two_tokens hashstack_v0 int_of_hex resumed_locals second_later_event
       = Some v2
       /\ self_last_block_data resumed_locals = Some block_99
       /\ stamp_of (token_timestamps (interest_rate_state resumed_locals)) "ETH"
          = 1000
       /\ (rate_of (cumulative_debt (interest_rate_state v2)) "ETH"
           == rate_of (cumulative_debt (interest_rate_state resumed_locals)) "ETH"
              + (3170979198376458650431253171
                 # 10000000000000000000000000000000000000))%Q
       /\ ~ (rate_of (cumulative_debt (interest_rate_state v2)) "ETH"
             == rate_of (cumulative_debt (interest_rate_state resumed_locals)) "ETH"
                + inject_Z 100 * inject_Z (timestamp second_later_event - 1000)
                  / SECONDS_IN_YEAR * (1 # 10000))%Q).
Proof.
  split.
  - eexists. split; [vm_compute; reflexivity|].
    repeat (split; [reflexivity|]). vm_compute. discriminate.
  - eexists. split; [vm_compute; reflexivity|].
    do 2 (split; [reflexivity|]). split; vm_compute; [reflexivity|discriminate].
Qed.

(** C2: the first answer is an error, [_events_over] is set, and the loop
    goes on: two more windows are requested and the event of the second
    answer is folded and written. *)
Lemma run_goes_on_after_a_fetch_error :
  exists self',
    run two_tokens hashstack_v0 int_of_hex no_stored_timestamps failing_api
      3 5000 (__init__ None)
    = Some (Returned self')
    /\ _events_over self' = true
    /\ api_requests self'
       = [(BInt 1000, BInt 2000); (BInt 3000, BInt 3000); (BInt 6000, BInt 5000)]
    /\ length (db_rows self') = 1%nat.
Proof. eexists. split; [vm_compute; reflexivity|]. repeat split. Qed.

(** C3: from block 0 with the latest block at 5000 the planner is asked
    for the window after (0, 1000); the first window requested is
    (1000, 2000) and (0, 1000) never is. *)
Lemma first_window_of_a_first_run :
  _get_blocks_bounds 0 (0 + PAGINATION_SIZE) 5000 = (1000, 2000)
  /\ exists self',
    run two_tokens hashstack_v0 int_of_hex no_stored_timestamps quiet_api
      3 5000 (__init__ None)
    = Some (Returned self')
    /\ api_requests self'
       = [(BInt 1000, BInt 2000); (BInt 3000, BInt 3000); (BInt 6000, BInt 5000)].
Proof.
  split; [reflexivity|]. eexists. split; [vm_compute; reflexivity|]. reflexivity.
Qed.

Lemma snapshots_per_fold_witness :
  exists self' rows,
    calculate_interest_rates two_tokens hashstack_v0 int_of_hex no_stored_timestamps
      (with_events [baseline_event; year_later_event; next_block_event]
         (__init__ None))
    = Some (self', rows)
    /\ length rows = 2%nat.
Proof.
  pose proof (snapshots_per_fold two_tokens hashstack_v0 int_of_hex
                no_stored_timestamps
                (with_events [baseline_event; year_later_event; next_block_event]
                   (__init__ None)))
    as [_ H].
  destruct (H baseline_event [year_later_event; next_block_event] eq_refl)
    as [Hret Hcount].
  destruct Hret as [[self' rows] Hcalc].
  { repeat constructor; vm_compute; eauto. }
  exists self', rows. split; [exact Hcalc|].
  destruct (Hcount self' rows Hcalc) as [Hlen _]. exact Hlen.
Defined.

(** C5: a bound that is not an integer is logged, and the request is sent
    all the same: the events of the answer become the working set. *)
Lemma non_integer_bound_is_still_fetched :
  let self :=
    _set_events answering_api (__init__ None) (BOther "'0'") (BInt 1000) in
  logged self = ["Invalid block numbers provided."]
  /\ api_requests self = [(BOther "'0'", BInt 1000)]
  /\ events self = [baseline_event]
  /\ _events_over self = false.
Proof. repeat split. Qed.

Lemma accumulators_never_decrease_witness :
  exists self' rows,
    calculate_interest_rates two_tokens hashstack_v0 int_of_hex no_stored_timestamps
      (with_events [baseline_event; next_block_event] (__init__ None))
    = Some (self', rows)
    /\ Forall (above ∅ ∅) rows
    /\ (forall r, last_block_data self' = Some r -> above ∅ ∅ r).
Proof.
  eexists _, _. split; [vm_compute; reflexivity|].
  apply (accumulators_never_decrease two_tokens hashstack_v0 int_of_hex
           no_stored_timestamps
           (with_events [baseline_event; next_block_event] (__init__ None))
           _ _ 100).
  - repeat constructor; intros z H; vm_compute in H; injection H as <-; lia.
  - repeat split; intros token_name H; vm_compute in H; injection H as <-;
      vm_compute; discriminate.
  - vm_compute; reflexivity.
Defined.

(** C7, as stated, fails: with basis points that are not negative, an
    event older than the token's baseline accrues over a negative number of
    seconds and both accumulators end below their seed value. *)
Lemma older_event_lowers_the_accumulators :
  Forall (nonneg_bps int_of_hex) [baseline_event; older_event]
  /\ exists self' rows r,
    calculate_interest_rates two_tokens hashstack_v0 int_of_hex no_stored_timestamps
      (with_events [baseline_event; older_event] (__init__ None))
    = Some (self', rows)
    /\ last_block_data self' = Some r
    /\ (rate_of (debt r) "ETH"
        < rate_of (cumulative_debt
                     (InterestRateState_new no_stored_timestamps 100 None)) "ETH")%Q
    /\ (rate_of (collateral r) "ETH"
        < rate_of (cumulative_collateral
                     (InterestRateState_new no_stored_timestamps 100 None)) "ETH")%Q.
Proof.
  split.
  - repeat constructor; intros z H; vm_compute in H; injection H as <-; lia.
  - eexists _, _, _. split; [vm_compute; reflexivity|].
    split; [reflexivity|]. split; vm_compute; reflexivity.
Qed.

Lemma empty_fold_changes_nothing_witness :
  calculate_interest_rates two_tokens hashstack_v0 int_of_hex no_stored_timestamps
    (__init__ (Some block_99))
  = Some (__init__ (Some block_99), []).
Proof.
  apply (empty_fold_changes_nothing two_tokens hashstack_v0 int_of_hex
           no_stored_timestamps (__init__ (Some block_99))).
  reflexivity.
Defined.

Lemma restart_agrees_when_stamps_are_kept_witness :
  exists self1 self2 self',
    fold_window two_tokens hashstack_v0 int_of_hex eth_at_snapshot
      (__init__ (Some block_99)) [year_later_event] = Some self1
    /\ fold_window two_tokens hashstack_v0 int_of_hex eth_at_snapshot
         self1 [two_years_later_event] = Some self2
    /\ fold_window two_tokens hashstack_v0 int_of_hex eth_at_snapshot
         (__init__ (Some block_99)) ([year_later_event] ++ [two_years_later_event])
       = Some self'
    /\ exists r2 r',
        last_block_data self2 = Some r2
        /\ last_block_data self' = Some r'
        /\ collateral r2 = collateral r'
        /\ debt r2 = debt r'.
Proof.
  eexists _, _, _.
  split; [vm_compute; reflexivity|].
  split; [vm_compute; reflexivity|].
  split; [vm_compute; reflexivity|].
  eapply (restart_agrees_when_stamps_are_kept two_tokens hashstack_v0 int_of_hex
            eth_at_snapshot (__init__ (Some block_99)) _ _ _
            [year_later_event] [two_years_later_event]).
  - by eexists.
  - intros st Hst. vm_compute in Hst. injection Hst as <-. vm_compute. reflexivity.
  - vm_compute; reflexivity.
  - vm_compute; reflexivity.
  - vm_compute; reflexivity.
Defined.

(** * Worked instances of the further properties *)

Lemma planned_window_never_moves_back_witness :
  1000 <= fst (_get_blocks_bounds 1000 2000 5000)
  /\ 2000 <= snd (_get_blocks_bounds 1000 2000 5000)
  /\ (snd (_get_blocks_bounds 1000 2000 5000) = 2000 -> 2000 = 5000).
Proof. apply (planned_window_never_moves_back 1000 2000 5000); lia. Defined.

Lemma planned_window_is_contiguous_only_from_zero_witness :
  fst (_get_blocks_bounds 1000 2000 5000) - 2000 = 1000
  /\ (fst (_get_blocks_bounds 1000 2000 5000) = 2000 <-> 1000 = 0).
Proof.
  apply (planned_window_is_contiguous_only_from_zero 1000 2000 5000).
  reflexivity.
Defined.

Lemma fold_assigns_only_the_last_block_data_witness :
  exists self' rows,
    calculate_interest_rates two_tokens hashstack_v0 int_of_hex no_stored_timestamps
      (with_events [baseline_event; next_block_event] (__init__ None))
    = Some (self', rows)
    /\ self'
       = with_last_block_data (last_block_data self')
           (with_events [baseline_event; next_block_event] (__init__ None))
    /\ (rows = []
        /\ last_block_data self'
           = last_block_data
               (with_events [baseline_event; next_block_event] (__init__ None))
        \/ rows <> [] /\ last rows = last_block_data self').
Proof.
  eexists _, _. split; [vm_compute; reflexivity|].
  apply (fold_assigns_only_the_last_block_data two_tokens hashstack_v0 int_of_hex
           no_stored_timestamps).
  vm_compute; reflexivity.
Defined.

Lemma run_requests_follow_the_planner_witness :
  exists self',
    run two_tokens hashstack_v0 int_of_hex no_stored_timestamps failing_api
      3 5000 (__init__ None) = Some (Returned self')
    /\ api_requests self'
       = map as_request (planned_windows 3 5000 1000 2000).
Proof.
  eexists. split; [vm_compute; reflexivity|].
  apply (run_requests_follow_the_planner two_tokens hashstack_v0 int_of_hex
           no_stored_timestamps failing_api 3 5000 (__init__ None)).
  vm_compute; reflexivity.
Defined.

Lemma run_requests_end_within_latest_witness :
  exists self',
    run two_tokens hashstack_v0 int_of_hex no_stored_timestamps failing_api
      3 5000 (__init__ None) = Some (Returned self')
    /\ exists windows,
        api_requests self' = [] ++ map as_request windows
        /\ Forall (fun w => snd w <= 5000) windows.
Proof.
  eexists. split; [vm_compute; reflexivity|].
  apply (run_requests_end_within_latest two_tokens hashstack_v0 int_of_hex
           no_stored_timestamps failing_api 3 5000 (__init__ None)).
  vm_compute; reflexivity.
Defined.


Lemma run_is_idle_only_when_caught_up_witness :
  run two_tokens hashstack_v0 int_of_hex no_stored_timestamps answering_api
    0 99 (__init__ (Some block_99)) = Some (Returned (__init__ (Some block_99)))
  /\ (api_requests (__init__ (Some block_99))
      = api_requests (__init__ (Some block_99))
      <-> start_block_of (__init__ (Some block_99)) = 99)
  /\ (start_block_of (__init__ (Some block_99)) = 99 ->
      __init__ (Some block_99) = __init__ (Some block_99)).
Proof.
  split; [reflexivity|].
  apply (run_is_idle_only_when_caught_up two_tokens hashstack_v0 int_of_hex
           no_stored_timestamps answering_api 0 99 (__init__ (Some block_99))).
  reflexivity.
Defined.

Lemma run_appends_rows_and_keeps_the_last_witness :
  exists self',
    run two_tokens hashstack_v0 int_of_hex no_stored_timestamps failing_api
      3 5000 (__init__ None) = Some (Returned self')
    /\ exists rows,
        db_rows self' = [] ++ rows
        /\ (rows = [] /\ last_block_data self' = None
            \/ rows <> [] /\ last rows = last_block_data self').
Proof.
  eexists. split; [vm_compute; reflexivity|].
  apply (run_appends_rows_and_keeps_the_last two_tokens hashstack_v0 int_of_hex
           no_stored_timestamps failing_api 3 5000 (__init__ None)).
  vm_compute; reflexivity.
Defined.

Lemma fold_raises_on_an_event_without_data_witness :
  calculate_interest_rates two_tokens hashstack_v0 int_of_hex no_stored_timestamps
    (with_events [baseline_event; no_data_event; next_block_event] (__init__ None))
  = None.
Proof.
  apply (fold_raises_on_an_event_without_data two_tokens hashstack_v0 int_of_hex
           no_stored_timestamps _ no_data_event).
  - right. left.
  - reflexivity.
Defined.

Lemma fold_leaves_other_tokens_alone_witness :
  exists self' rows,
    calculate_interest_rates two_tokens hashstack_v0 int_of_hex eth_at_snapshot
      (with_events [year_later_event; two_years_later_event]
         (__init__ (Some block_99)))
    = Some (self', rows)
    /\ Forall (fun r => collateral r !! "USDT" = None /\ debt r !! "USDT" = None)
         rows.
Proof.
  eexists _, _. split; [vm_compute; reflexivity|].
  eapply (fold_leaves_other_tokens_alone two_tokens hashstack_v0 int_of_hex
           eth_at_snapshot
           (with_events [year_later_event; two_years_later_event]
              (__init__ (Some block_99))) _ _ "USDT" 100).
  - intros event Hin. apply list_elem_of_In in Hin.
    destruct Hin as [<- | [<- | []]]; vm_compute; discriminate.
  - vm_compute; reflexivity.
Defined.

Lemma fold_carries_the_seed_over_ignored_events_witness :
  exists self' rows,
    calculate_interest_rates two_tokens hashstack_v0 int_of_hex eth_at_snapshot
      (with_events [unknown_token_event; other_key_event]
         (__init__ (Some block_99)))
    = Some (self', rows)
    /\ Forall (fun r =>
                 collateral r = collateral block_99
                 /\ debt r = debt block_99
                 /\ ir_timestamp r = 1000) rows.
Proof.
  apply (fold_carries_the_seed_over_ignored_events two_tokens hashstack_v0
           int_of_hex eth_at_snapshot
           (with_events [unknown_token_event; other_key_event]
              (__init__ (Some block_99))) 100).
  repeat constructor; discriminate.
Defined.

Lemma first_block_of_a_first_run_accrues_nothing_witness :
  calculate_interest_rates two_tokens hashstack_v0 int_of_hex no_stored_timestamps
    (with_events [baseline_event; year_later_event] (__init__ None))
  = Some
      (with_last_block_data
         (Some {| protocol_id := hashstack_v0; block := 100; ir_timestamp := 0;
                  collateral := ∅; debt := ∅ |})
         (with_events [baseline_event; year_later_event] (__init__ None)),
       [{| protocol_id := hashstack_v0; block := 100; ir_timestamp := 0;
           collateral := ∅; debt := ∅ |}]).
Proof.
  apply (first_block_of_a_first_run_accrues_nothing two_tokens hashstack_v0
           int_of_hex no_stored_timestamps
           (with_events [baseline_event; year_later_event] (__init__ None))
           baseline_event [year_later_event] eq_refl eq_refl).
  repeat constructor; discriminate.
Defined.

Lemma fold_emits_one_snapshot_per_run_of_a_block_witness :
  exists self' rows,
    calculate_interest_rates two_tokens hashstack_v0 int_of_hex no_stored_timestamps
      (with_events [baseline_event; year_later_event; next_block_event]
         (__init__ None))
    = Some (self', rows)
    /\ map block rows = [100; 101]
    /\ StronglySorted Z.lt (map block rows).
Proof.
  eexists _, _. split; [vm_compute; reflexivity|].
  destruct (fold_emits_one_snapshot_per_run_of_a_block two_tokens hashstack_v0
              int_of_hex no_stored_timestamps
              (with_events [baseline_event; year_later_event; next_block_event]
                 (__init__ None)) _ _ ltac:(vm_compute; reflexivity))
    as [Hblocks Hsorted].
  split; [exact Hblocks|]. apply Hsorted.
  change (Sorted Z.le [100; 100; 101]).
  repeat first [lia | constructor].
Defined.
